(** * TOTP: Base32 codec and HOTP/TOTP derivation of [src/index.ts]

    A shallow embedding of the five functions of [src/index.ts]
    ([stringToBase32], [base32Decode], [generateHMAC], [generateTOTP],
    [verifyTOTP]) together with the JavaScript string and number primitives
    they call, followed by the properties of the specification.

    Modelling conventions.
    - A JavaScript string is a [string]: one [ascii] per UTF-16 code unit, so
      the model covers the strings whose code units are below U+0100.
    - A JavaScript number is a [Z]: the program's numbers are integers, and
      its sums, products, remainders and divisions by 256 are exact on
      integer-valued doubles.  The one operation that rounds, the division
      of line 80, is modelled with the rounding of binary64 ([Double.div]).
      [NaN] and [undefined] are [None] of an [option].
    - A [Uint8Array] is a [list Z] of values in [0, 256).
    - A thrown exception or a rejected promise is the [Throw] of [result]. *)

From Stdlib Require Import ZArith List String Ascii Bool Lia.
From Stdlib Require Floats.SpecFloat.
Import ListNotations.

Local Open Scope list_scope.
Local Open Scope string_scope.
Local Open Scope Z_scope.

(** ** Exceptions *)

Inductive error : Type :=
| InvalidBase32   (* new Error('Invalid base32 string provided') *)
| CryptoFailure.  (* a rejection of crypto.subtle.importKey / sign *)

Inductive result (A : Type) : Type :=
| Ok (a : A)
| Throw (e : error).
Arguments Ok {A} a.
Arguments Throw {A} e.

Definition bind {A B : Type} (r : result A) (k : A -> result B) : result B :=
  match r with
  | Ok a => k a
  | Throw e => Throw e
  end.

Notation "x <- r ;; k" := (bind r (fun x => k))
  (at level 61, r at next level, right associativity).

(** ** JavaScript primitives used by the program *)

Module JS.

(** [s.length] *)
Definition length (s : string) : nat := String.length s.

(** [c.repeat(n)] for a one-character string. *)
Fixpoint repeat (c : ascii) (n : nat) : string :=
  match n with
  | O => ""
  | S k => String c (repeat c k)
  end.

(** [s.padStart(n, c)] and [s.padEnd(n, c)] with a one-character filler. *)
Definition padStart (n : nat) (c : ascii) (s : string) : string :=
  repeat c (n - length s) ++ s.

Definition padEnd (n : nat) (c : ascii) (s : string) : string :=
  s ++ repeat c (n - length s).

Fixpoint take (n : nat) (s : string) : string :=
  match n, s with
  | S k, String c r => String c (take k r)
  | _, _ => ""
  end.

Fixpoint drop (n : nat) (s : string) : string :=
  match n, s with
  | S k, String _ r => drop k r
  | _, _ => s
  end.

(** [s.slice(i, j)] for [0 <= i <= j]; both ends are clamped to the
    length of [s]. *)
Definition slice (i j : nat) (s : string) : string := take (j - i) (drop i s).

(** [s[i]]: [undefined] out of range. *)
Fixpoint charAt (i : nat) (s : string) : option ascii :=
  match s, i with
  | "", _ => None
  | String c _, O => Some c
  | String _ r, S k => charAt k r
  end.

(** [n.toString(2)] for an integer [n]. *)
Fixpoint pos_toString2 (p : positive) (acc : string) : string :=
  match p with
  | xH => String "1" acc
  | xO q => pos_toString2 q (String "0" acc)
  | xI q => pos_toString2 q (String "1" acc)
  end.

Definition toString2 (n : Z) : string :=
  match n with
  | Z0 => "0"
  | Zpos p => pos_toString2 p ""
  | Zneg p => String "-" (pos_toString2 p "")
  end.

(** [parseInt(s, 2)] on a string that starts with neither white space nor
    a sign: the value of the longest prefix of binary digits, [NaN] when
    that prefix is empty. *)
Fixpoint parseInt2_from (acc : Z) (s : string) : Z :=
  match s with
  | String "0" r => parseInt2_from (2 * acc) r
  | String "1" r => parseInt2_from (2 * acc + 1) r
  | _ => acc
  end.

Definition parseInt2 (s : string) : option Z :=
  match s with
  | String "0" _ | String "1" _ => Some (parseInt2_from 0 s)
  | _ => None
  end.

(** [n.toString()] for an integer [n]: decimal digits, most significant
    first.  A number has no more decimal than binary digits, which bounds
    the recursion. *)
Definition digit (d : Z) : ascii := ascii_of_N (48 + Z.to_N d).

Fixpoint toString10_from (fuel : nat) (n : Z) (acc : string) : string :=
  match fuel with
  | O => acc
  | S f =>
      let acc' := String (digit (n mod 10)) acc in
      if n / 10 =? 0 then acc' else toString10_from f (n / 10) acc'
  end.

Definition toString10 (n : Z) : string :=
  match n with
  | Zneg p => String "-" (toString10_from (S (Z.to_nat (Z.log2 (Zpos p)))) (Zpos p) "")
  | _ => toString10_from (S (Z.to_nat (Z.log2 n))) n ""
  end.

(** [String(x)] of a number that may be [NaN]. *)
Definition toString (x : option Z) : string :=
  match x with
  | Some n => toString10 n
  | None => "NaN"
  end.

(** [c.toUpperCase()] for one code unit, as the key of [base32Lookup], its
    only use in the program.  On U+0000..U+007F this is the function of the
    language.  On U+0080..U+00FF the language maps some code units
    elsewhere (to a code unit above U+007F, or to "SS"), never to a key of
    [base32Lookup], whose keys are ASCII; leaving those code units in place
    gives the same lookup.  No property below takes this function for the
    upper-casing of a text: those on case are stated with [ascii_upper]. *)
Definition toUpperCase (c : ascii) : ascii :=
  let n := N_of_ascii c in
  if ((97 <=? n) && (n <=? 122))%N then ascii_of_N (n - 32) else c.

(** [s.replace(/=+$/, '')]: the only match of [=+$] is the maximal run of
    ['='] that ends the string, when there is one. *)
Fixpoint stripTrailingEquals (s : string) : string :=
  match s with
  | "" => ""
  | String c r =>
      match stripTrailingEquals r with
      | "" => if Ascii.eqb c "=" then "" else String c ""
      | r' => String c r'
      end
  end.

(** [new TextEncoder().encode(text)]: UTF-8, one byte for a code unit
    below U+0080 and two for U+0080..U+00FF.  Surrogates, which the platform
    pairs or replaces, are not among the code units of the model, and the
    properties of the encoder below are stated on the bytes, not on how the
    bytes of a concatenation arise. *)
Definition utf8 (c : ascii) : list Z :=
  let n := Z.of_N (N_of_ascii c) in
  if n <? 128 then [n]
  else [Z.lor 192 (Z.shiftr n 6); Z.lor 128 (Z.land n 63)].

Fixpoint TextEncoder_encode (text : string) : list Z :=
  match text with
  | "" => []
  | String c r => (utf8 c ++ TextEncoder_encode r)%list
  end.

(** Storing a number in a [Uint8Array] element (ToUint8): [NaN] becomes 0,
    an integer is reduced modulo 256. *)
Definition toUint8 (x : option Z) : Z :=
  match x with
  | Some n => n mod 256
  | None => 0
  end.

(** The operators [%], [*] and [+] on numbers that may be [NaN].  [%] takes
    the sign of the dividend. *)
Definition rem (x : option Z) (m : Z) : option Z := option_map (fun n => Z.rem n m) x.
Definition mul (x : option Z) (m : Z) : option Z := option_map (fun n => n * m) x.
Definition add (x y : option Z) : option Z :=
  match x, y with
  | Some a, Some b => Some (a + b)
  | _, _ => None
  end.

End JS.

(** ** The Base32 codec *)

Definition alphabet : string := "ABCDEFGHIJKLMNOPQRSTUVWXYZ234567".

(** [output += alphabet[k]]: an index that is [NaN] or out of range reads
    [undefined], which the concatenation renders as text. *)
Definition alphabet_at (k : option Z) : string :=
  match k with
  | Some n =>
      match (if n <? 0 then None else JS.charAt (Z.to_nat n) alphabet) with
      | Some c => String c ""
      | None => "undefined"
      end
  | None => "undefined"
  end.

(** First loop of [stringToBase32]: every byte as 8 binary digits. *)
Definition bytes_to_bits (byteArray : list Z) : string :=
  fold_left (fun bits b => bits ++ JS.padStart 8 "0" (JS.toString2 b)) byteArray "".

(** Second loop: [for (let i = 0; i < bits.length; i += 5)].  The index
    grows at each turn, so [length bits] turns are never exceeded
    (lemma [encode_groups_total]). *)
Fixpoint encode_groups (fuel : nat) (bits : string) (i : nat) (output : string) : string :=
  match fuel with
  | O => output
  | S f =>
      if (i <? JS.length bits)%nat
      then encode_groups f bits (i + 5)
             (output ++ alphabet_at (JS.parseInt2 (JS.padEnd 5 "0" (JS.slice i (i + 5) bits))))
      else output
  end.

(** Third loop: [while (output.length % 8 !== 0) output += '=']; it ends
    within 7 turns (lemma [pad_equals_8]). *)
Fixpoint pad_equals (fuel : nat) (output : string) : string :=
  match fuel with
  | O => output
  | S f =>
      if (JS.length output mod 8 =? 0)%nat then output
      else pad_equals f (output ++ "=")
  end.

Definition encode_bytes (byteArray : list Z) : string :=
  let bits := bytes_to_bits byteArray in
  let output := encode_groups (JS.length bits) bits 0 "" in
  pad_equals 8 output.

Definition stringToBase32 (text : string) : string :=
  encode_bytes (JS.TextEncoder_encode text).

(** The object literal [base32Lookup]; a key that is absent reads
    [undefined]. *)
Definition base32Lookup (c : ascii) : option Z :=
  match c with
  | "A" => Some 0 | "B" => Some 1 | "C" => Some 2 | "D" => Some 3
  | "E" => Some 4 | "F" => Some 5 | "G" => Some 6 | "H" => Some 7
  | "I" => Some 8 | "J" => Some 9 | "K" => Some 10 | "L" => Some 11
  | "M" => Some 12 | "N" => Some 13 | "O" => Some 14 | "P" => Some 15
  | "Q" => Some 16 | "R" => Some 17 | "S" => Some 18 | "T" => Some 19
  | "U" => Some 20 | "V" => Some 21 | "W" => Some 22 | "X" => Some 23
  | "Y" => Some 24 | "Z" => Some 25 | "2" => Some 26 | "3" => Some 27
  | "4" => Some 28 | "5" => Some 29 | "6" => Some 30 | "7" => Some 31
  | _ => None
  end%char.

(** [!val] for [val] a number or [undefined]: true on [undefined] and on 0. *)
Definition not_val (val : option Z) : bool :=
  match val with
  | None => true
  | Some n => n =? 0
  end.

(** First loop of [base32Decode], over the characters left after the
    trailing ['='] are removed. *)
Fixpoint decode_chars (base32 : string) (bits : string) : result string :=
  match base32 with
  | "" => Ok bits
  | String c rest =>
      let val := base32Lookup (JS.toUpperCase c) in
      if not_val val then Throw InvalidBase32
      else
        match val with
        | Some v => decode_chars rest (bits ++ JS.padStart 5 "0" (JS.toString2 v))
        | None => Throw InvalidBase32
        end
  end.

(** Second loop: [for (let i = 0; i < bits.length; i += 8)]; again
    [length bits] turns are never exceeded (lemma [decode_groups_spec]). *)
Fixpoint decode_groups (fuel : nat) (bits : string) (i : nat) (output : list (option Z))
  : list (option Z) :=
  match fuel with
  | O => output
  | S f =>
      if (i <? JS.length bits)%nat
      then decode_groups f bits (i + 8)
             (output ++ [JS.parseInt2 (JS.slice i (i + 8) bits)])%list
      else output
  end.

Definition base32Decode (base32 : string) : result (list Z) :=
  let base32 := JS.stripTrailingEquals base32 in
  bits <- decode_chars base32 "" ;;
  let output := decode_groups (JS.length bits) bits 0 [] in
  Ok (map JS.toUint8 output).

(** ** HOTP and TOTP *)

(** [a[i] = v] on a typed array: an index out of range is ignored. *)
Fixpoint array_set (i : nat) (v : Z) (a : list Z) : list Z :=
  match a, i with
  | [], _ => []
  | _ :: r, O => v :: r
  | x :: r, S k => x :: array_set k v r
  end.

(** [a[i]] where the index is a number that may be [NaN]; [undefined], which
    arithmetic turns into [NaN], when [i] is no index of [a]. *)
Definition array_get (a : list Z) (i : option Z) : option Z :=
  match i with
  | Some n => if n <? 0 then None else nth_error a (Z.to_nat n)
  | None => None
  end.

(** The loop of [generateHMAC], [for (let i = 7; i >= 0; i--)]: [n] is the
    number of turns left, so the turn writes index [n - 1]. *)
Fixpoint fill_counter (n : nat) (counter : Z) (counterArray : list Z) : list Z :=
  match n with
  | O => counterArray
  | S i =>
      fill_counter i (counter / 256)
        (array_set i (JS.toUint8 (Some (Z.rem counter 256))) counterArray)
  end.

Definition counter_bytes (counter : Z) : list Z :=
  fill_counter 8 counter (List.repeat 0 8).

Definition TIME_STEP : Z := 30.

(** The division of two numbers, which IEEE 754 rounds to the nearest
    binary64 number, ties to the even significand. *)
Module Double.

(** The integer nearest to [n / d], ties to even, for [0 <= n] and [0 < d]. *)
Definition rne (n d : Z) : Z :=
  let q := n / d in
  match 2 * (n mod d) ?= d with
  | Lt => q
  | Gt => q + 1
  | Eq => if Z.even q then q else q + 1
  end.

(** [a / (b * 2^e)] as a quotient of integers, for either sign of [e]. *)
Definition scale_num (a e : Z) : Z := a * 2 ^ Z.max 0 (- e).
Definition scale_den (b e : Z) : Z := b * 2 ^ Z.max 0 e.

(** [a / b] for positive integers [a] and [b]: the pair [(m, e)] of the
    binary64 number [m * 2^e] nearest to the quotient.  The exponent [e] is
    the one that puts the quotient between 2^52 and 2^53, so that [m] has 53
    bits (or is 2^53, after a carry).  The quotients of the program,
    of a timestamp by 30000, are far from the overflow and underflow
    thresholds of the format, which are not modelled. *)
Definition div (a b : Z) : Z * Z :=
  let e0 := Z.log2 a - Z.log2 b - 52 in
  let e := if scale_den b e0 * 2 ^ 52 <=? scale_num a e0 then e0 else e0 - 1 in
  (rne (scale_num a e) (scale_den b e), e).

(** [Math.floor] of the number [m * 2^e]. *)
Definition floor (m e : Z) : Z := if 0 <=? e then m * 2 ^ e else m / 2 ^ (- e).

(** The integers that are binary64 numbers: at most 53 significant bits. *)
Definition is_double (z : Z) : bool :=
  Z.abs z mod 2 ^ Z.max 0 (Z.log2 (Z.abs z) - 52) =? 0.

End Double.

(** [Math.floor(timestamp / (1000 * TIME_STEP))], for a timestamp that is an
    integer-valued double.  The quotient of a negative timestamp is the
    opposite of that of its absolute value. *)
Definition counter_of (timestamp : Z) : Z :=
  match timestamp with
  | Z0 => 0
  | Zpos _ =>
      let '(m, e) := Double.div timestamp (1000 * TIME_STEP) in Double.floor m e
  | Zneg p =>
      let '(m, e) := Double.div (Zpos p) (1000 * TIME_STEP) in Double.floor (- m) e
  end.

(** Lines 93 to 111 of [generateTOTP]: from the digest to [binary]. *)
Definition offset_of (hmac : list Z) : option Z :=
  JS.rem (array_get hmac (Some (Z.of_nat (List.length hmac) - 1))) 16.

Definition truncate (hmac : list Z) : option Z :=
  let offset := offset_of hmac in
  JS.add
    (JS.add
       (JS.add
          (JS.mul (JS.rem (array_get hmac (JS.add offset (Some 0))) 128) (256 ^ 3))
          (JS.mul (JS.rem (array_get hmac (JS.add offset (Some 1))) 256) (256 ^ 2)))
       (JS.mul (JS.rem (array_get hmac (JS.add offset (Some 2))) 256) (256 ^ 1)))
    (JS.mul (JS.rem (array_get hmac (JS.add offset (Some 3))) 256) (256 ^ 0)).

(** Lines 114 and 115: the six-digit rendering. *)
Definition format_otp (binary : option Z) : string :=
  let otp := JS.rem binary 1000000 in
  JS.padStart 6 "0" (JS.toString otp).

Section Totp.

(** The platform's HMAC-SHA-1, [crypto.subtle.importKey] followed by
    [crypto.subtle.sign]: from a key and a message to a digest, or a
    rejection. *)
Variable subtle_hmac : list Z -> list Z -> result (list Z).

Definition generateHMAC (key : list Z) (counter : Z) : result (list Z) :=
  let counterArray := counter_bytes counter in
  subtle_hmac key counterArray.

Definition generateTOTP (secret : string) (timestamp : Z) : result string :=
  let counter := counter_of timestamp in
  key <- base32Decode secret ;;
  hmac <- generateHMAC key counter ;;
  Ok (format_otp (truncate hmac)).

Definition verifyTOTP (secret userToken : string) (timestamp : Z) : result bool :=
  generatedToken <- generateTOTP secret timestamp ;;
  Ok (String.eqb generatedToken userToken).

End Totp.

(** ** A reference HMAC-SHA-1

    [src/index.ts] takes HMAC-SHA-1 from the Web Crypto API.  This is that
    function after RFC 3174 and RFC 2104, on lists of bytes, so that the
    program can be run on the test vectors of RFC 6238. *)

Module RefCrypto.

Definition mask32 : Z := 2 ^ 32 - 1.
Definition add32 (a b : Z) : Z := Z.land (a + b) mask32.
Definition rotl (n x : Z) : Z :=
  Z.lor (Z.land (Z.shiftl x n) mask32) (Z.shiftr x (32 - n)).

Fixpoint be_bytes (n : nat) (x : Z) : list Z :=
  match n with
  | O => []
  | S k => (be_bytes k (x / 256) ++ [x mod 256])%list
  end.

Definition pad (msg : list Z) : list Z :=
  let len := Z.of_nat (List.length msg) in
  let zeros := Z.to_nat ((55 - len) mod 64) in
  (msg ++ [128] ++ List.repeat 0 zeros ++ be_bytes 8 (8 * len))%list.

Fixpoint words (fuel : nat) (bs : list Z) : list Z :=
  match fuel, bs with
  | S f, a :: b :: c :: d :: r =>
      (((a * 256 + b) * 256 + c) * 256 + d) :: words f r
  | _, _ => []
  end.

(** The message schedule, most recent word first. *)
Fixpoint schedule (n : nat) (w : list Z) : list Z :=
  match n with
  | O => w
  | S k =>
      let x := Z.lxor (Z.lxor (nth 2 w 0) (nth 7 w 0))
                      (Z.lxor (nth 13 w 0) (nth 15 w 0)) in
      schedule k (rotl 1 x :: w)
  end.

Definition round (st : Z * Z * Z * Z * Z) (tw : Z * Z) : Z * Z * Z * Z * Z :=
  let '(a, b, c, d, e) := st in
  let '(t, w) := tw in
  let '(f, k) :=
    if t <? 20 then (Z.lor (Z.land b c) (Z.land (Z.lxor b mask32) d), 0x5A827999)
    else if t <? 40 then (Z.lxor (Z.lxor b c) d, 0x6ED9EBA1)
    else if t <? 60 then
      (Z.lor (Z.lor (Z.land b c) (Z.land b d)) (Z.land c d), 0x8F1BBCDC)
    else (Z.lxor (Z.lxor b c) d, 0xCA62C1D6) in
  (add32 (add32 (add32 (add32 (rotl 5 a) f) e) k) w, a, rotl 30 b, c, d).

Definition block (h : Z * Z * Z * Z * Z) (bs : list Z) : Z * Z * Z * Z * Z :=
  let w := rev (schedule 64 (rev (words 16 bs))) in
  let tw := combine (map Z.of_nat (seq 0 80)) w in
  let '(a, b, c, d, e) := fold_left round tw h in
  let '(h0, h1, h2, h3, h4) := h in
  (add32 h0 a, add32 h1 b, add32 h2 c, add32 h3 d, add32 h4 e).

Fixpoint blocks (fuel : nat) (h : Z * Z * Z * Z * Z) (bs : list Z) : Z * Z * Z * Z * Z :=
  match fuel, bs with
  | S f, _ :: _ => blocks f (block h (firstn 64 bs)) (skipn 64 bs)
  | _, _ => h
  end.

Definition sha1 (msg : list Z) : list Z :=
  let p := pad msg in
  let '(h0, h1, h2, h3, h4) :=
    blocks (List.length p)
      (0x67452301, 0xEFCDAB89, 0x98BADCFE, 0x10325476, 0xC3D2E1F0) p in
  (be_bytes 4 h0 ++ be_bytes 4 h1 ++ be_bytes 4 h2 ++ be_bytes 4 h3 ++ be_bytes 4 h4)%list.

Definition hmac_sha1 (key msg : list Z) : list Z :=
  let k := if (64 <? List.length key)%nat then sha1 key else key in
  let k := (k ++ List.repeat 0 (64 - List.length k))%list in
  sha1 (map (Z.lxor 0x5c) k ++ sha1 (map (Z.lxor 0x36) k ++ msg))%list.

(** [importKey] rejects a key of length zero. *)
Definition subtle_hmac (key msg : list Z) : result (list Z) :=
  match key with
  | [] => Throw CryptoFailure
  | _ => Ok (hmac_sha1 key msg)
  end.

End RefCrypto.

(** ** Definitions used to state the properties *)

(** A byte of a [Uint8Array]. *)
Definition is_byte (b : Z) : Prop := 0 <= b < 256.

(** The contract of the HMAC provider: a digest is 20 bytes. *)
Definition is_digest (d : list Z) : Prop :=
  List.length d = 20%nat /\ Forall is_byte d.

Definition digest_contract (subtle_hmac : list Z -> list Z -> result (list Z)) : Prop :=
  forall key msg d, subtle_hmac key msg = Ok d -> is_digest d.

(** The number that a sequence of bytes denotes, first byte most
    significant. *)
Definition be_value (bs : list Z) : Z :=
  fold_left (fun acc b => acc * 256 + b) bs 0.

(** A decimal digit, a string of decimal digits, and the number such a
    string denotes. *)
Definition is_decimal_digit (c : ascii) : bool :=
  ((48 <=? N_of_ascii c) && (N_of_ascii c <=? 57))%N.

Fixpoint all_digits (s : string) : bool :=
  match s with
  | "" => true
  | String c r => is_decimal_digit c && all_digits r
  end.

Fixpoint decimal_from (acc : Z) (s : string) : Z :=
  match s with
  | "" => acc
  | String c r => decimal_from (acc * 10 + (Z.of_N (N_of_ascii c) - 48)) r
  end.

Definition decimal_value (s : string) : Z := decimal_from 0 s.

(** A string of binary digits and the number it denotes. *)
Fixpoint is_binary (s : string) : bool :=
  match s with
  | "" => true
  | String c r => (Ascii.eqb c "0" || Ascii.eqb c "1") && is_binary r
  end.

Fixpoint bin_from (acc : Z) (s : string) : Z :=
  match s with
  | "" => acc
  | String c r => bin_from (2 * acc + (if Ascii.eqb c "1" then 1 else 0)) r
  end.

Definition bin_value (s : string) : Z := bin_from 0 s.

(** The partition of a bit stream into 8-bit groups, in the words of the
    specification: the complete groups, of which there are
    [length bits / 8], and the final group shorter than 8 bits, which is
    empty when the length is a multiple of 8. *)
Fixpoint complete_groups_n (n : nat) (bits : string) : list Z :=
  match n with
  | O => []
  | S k => bin_value (JS.take 8 bits) :: complete_groups_n k (JS.drop 8 bits)
  end.

Definition complete_groups (bits : string) : list Z :=
  complete_groups_n (JS.length bits / 8) bits.

Definition trailing_group (bits : string) : string :=
  JS.drop (8 * (JS.length bits / 8)) bits.

(** The byte that the final group gives when it is not empty: its bits
    read as a binary numeral. *)
Definition partial_group (bits : string) : list Z :=
  match trailing_group bits with
  | "" => []
  | t => [bin_value t]
  end.

(** The characters of a string. *)
Fixpoint chars (s : string) : list ascii :=
  match s with
  | "" => []
  | String c r => c :: chars r
  end.

(** A character of the alphabet. *)
Definition in_alphabet (c : ascii) : bool := existsb (Ascii.eqb c) (chars alphabet).

(** The characters that the first loop of [base32Decode] lets through. *)
Definition accepted (c : ascii) : bool :=
  negb (not_val (base32Lookup (JS.toUpperCase c))).

(** The five binary digits that [base32Decode] appends for a value. *)
Definition five_bits (v : Z) : string := JS.padStart 5 "0" (JS.toString2 v).

(** The secret and the digest of the published examples: the key
    "12345678901234567890" of RFC 6238 in Base32, and the digest of the
    example of RFC 4226, section 5.4. *)
Definition rfc6238_secret : string := "GEZDGNBVGY3TQOJQGEZDGNBVGY3TQOJQ".

Definition rfc4226_digest : list Z :=
  [0x1f; 0x86; 0x98; 0x69; 0x0e; 0x02; 0xca; 0x16; 0x61; 0x85;
   0x50; 0xef; 0x7f; 0x19; 0xda; 0x8e; 0x94; 0x5b; 0x55; 0x5a].

(** The eight binary digits that [stringToBase32] appends for a byte. *)
Definition eight_bits (b : Z) : string := JS.padStart 8 "0" (JS.toString2 b).

(** What [n] turns of the second loop of [stringToBase32] append when they
    start at the front of [s]. *)
Fixpoint encode_groups_n (n : nat) (s : string) : string :=
  match n with
  | O => ""
  | S k =>
      alphabet_at (JS.parseInt2 (JS.padEnd 5 "0" (JS.take 5 s)))
        ++ encode_groups_n k (JS.drop 5 s)
  end.

(** The fold of ASCII case: the letters a to z (codes 97 to 122) become A to
    Z, by clearing the bit of weight 32; every other code unit, the
    non-ASCII ones included, is left as it is. *)
Definition is_ascii_lower (c : ascii) : bool :=
  ((97 <=? nat_of_ascii c) && (nat_of_ascii c <=? 122))%nat.

Definition ascii_upper (c : ascii) : ascii :=
  if is_ascii_lower c then
    match c with
    | Ascii b0 b1 b2 b3 b4 _ b6 b7 => Ascii b0 b1 b2 b3 b4 false b6 b7
    end
  else c.

(** A string with every character replaced by its image under [f]. *)
Fixpoint map_chars (f : ascii -> ascii) (s : string) : string :=
  match s with
  | "" => ""
  | String c r => String (f c) (map_chars f r)
  end.

(** The binary digits that the first loop of [base32Decode] appends for the
    characters of a string that it accepts. *)
Fixpoint bits_of_chars (s : string) : string :=
  match s with
  | "" => ""
  | String c r =>
      match base32Lookup (JS.toUpperCase c) with
      | Some v => five_bits v
      | None => ""
      end ++ bits_of_chars r
  end.

(** A character on which [base32Decode] throws: in upper case it is outside
    the alphabet, or it is ['A']. *)
Definition rejected (c : ascii) : Prop :=
  in_alphabet (JS.toUpperCase c) = false \/ JS.toUpperCase c = "A"%char.

(** The number that a string denotes in base 32, each character counting for
    its value in the lookup table (0 when it has none). *)
Fixpoint base32_from (acc : Z) (s : string) : Z :=
  match s with
  | "" => acc
  | String c r =>
      base32_from
        (32 * acc + match base32Lookup (JS.toUpperCase c) with
                    | Some v => v
                    | None => 0
                    end) r
  end.

Definition base32_value (s : string) : Z := base32_from 0 s.

(** The same counter through the standard library's specification of
    IEEE 754 arithmetic, for comparison with [Double.div]: the timestamp and
    30000 as binary64 numbers, their quotient by [SFdiv], and its floor. *)
Definition sf_of_Z (z : Z) : SpecFloat.spec_float :=
  SpecFloat.binary_normalize 53 1024 z 0 false.

Definition sf_floor (x : SpecFloat.spec_float) : option Z :=
  match x with
  | SpecFloat.S754_zero _ => Some 0
  | SpecFloat.S754_finite s m e =>
      let v := if s then Zneg m else Zpos m in
      Some (if 0 <=? e then v * 2 ^ e else v / 2 ^ (- e))
  | _ => None
  end.

Definition sf_counter (timestamp : Z) : option Z :=
  sf_floor (SpecFloat.SFdiv 53 1024 (sf_of_Z timestamp) (sf_of_Z 30000)).

(** Timestamps that are doubles, on both sides of 0, of the step boundaries
    and of 2^53. *)
Definition sample_timestamps : list Z :=
  [0; 1; 29999; 30000; 30001; 59000; 59999; 60000; 89999; 90000;
   1111111109000; 1700000000000; 20000000000000;
   2 ^ 53 - 30001; 2 ^ 53 - 30000; 2 ^ 53 - 1; 2 ^ 53; 2 ^ 53 + 2; 3 * 2 ^ 52;
   263882790666269952; 263882790666269984; 2 ^ 62; 7 * 2 ^ 60; 10 ^ 21; 2 ^ 70;
   -1; -29999; -30000; -30001; -59000; -1700000000000; - (2 ^ 53); - (10 ^ 21)].

(** A check of all the numbers below [n]. *)
Fixpoint forall_below (n : nat) (p : Z -> bool) : bool :=
  match n with
  | O => true
  | S k => p (Z.of_nat k) && forall_below k p
  end.

(** * Properties *)

(** ** Strings *)

Section Strings.

Lemma append_nil_r (s : string) : s ++ "" = s.
Proof. induction s as [|c s IH]; cbn; [|rewrite IH]; reflexivity. Qed.

Lemma append_assoc (a b c : string) : (a ++ b) ++ c = a ++ (b ++ c).
Proof. induction a as [|x a IH]; cbn; [|rewrite IH]; reflexivity. Qed.

Lemma length_append (a b : string) :
  JS.length (a ++ b) = (JS.length a + JS.length b)%nat.
Proof. unfold JS.length. induction a as [|x a IH]; cbn; [|rewrite IH]; reflexivity. Qed.

Lemma length_repeat (c : ascii) (n : nat) : JS.length (JS.repeat c n) = n.
Proof. unfold JS.length. induction n as [|n IH]; cbn; [|rewrite IH]; reflexivity. Qed.

Lemma length_padStart (n : nat) (c : ascii) (s : string) :
  (JS.length s <= n)%nat -> JS.length (JS.padStart n c s) = n.
Proof.
  intros H. unfold JS.padStart. rewrite length_append, length_repeat. lia.
Qed.

Lemma all_digits_append (a b : string) :
  all_digits (a ++ b) = all_digits a && all_digits b.
Proof.
  induction a as [|x a IH]; cbn; [reflexivity|].
  rewrite IH, andb_assoc. reflexivity.
Qed.

Lemma all_digits_zeros (n : nat) : all_digits (JS.repeat "0" n) = true.
Proof. induction n as [|n IH]; cbn; [|rewrite IH]; reflexivity. Qed.

Lemma decimal_from_append (a b : string) (v : Z) :
  decimal_from v (a ++ b) = decimal_from (decimal_from v a) b.
Proof. revert v. induction a as [|x a IH]; intros v; cbn; [|rewrite IH]; reflexivity. Qed.

Lemma decimal_from_zeros (n : nat) : decimal_from 0 (JS.repeat "0" n) = 0.
Proof. induction n as [|n IH]; cbn; [reflexivity | exact IH]. Qed.

End Strings.

(** ** The division of line 80 *)

Section DoubleDivision.

Lemma rne_bounds (x : Z) :
  0 <= x ->
  x / 30000 <= Double.rne x 30000 /\ 60000 * Double.rne x 30000 <= 2 * x + 30000.
Proof.
  intros Hx. unfold Double.rne.
  destruct (Z.compare_spec (2 * (x mod 30000)) 30000) as [E|E|E];
    [destruct (Z.even (x / 30000))| |];
    Z.div_mod_to_equations; lia.
Qed.

(** Rounding to a grid finer than 1/15000 and flooring gives the floor of
    the exact quotient. *)
Lemma rne_floor (t P : Z) :
  0 <= t -> 15000 < P -> Double.rne (t * P) 30000 / P = t / 30000.
Proof.
  intros Ht HP.
  destruct (rne_bounds (t * P)) as [Hlo Hhi]; [nia|].
  set (m := Double.rne (t * P) 30000) in *.
  pose proof (Z.div_mod t 30000 ltac:(lia)) as Dt.
  pose proof (Z.mod_pos_bound t 30000 ltac:(lia)) as Bt.
  set (N := t / 30000) in *. set (r := t mod 30000) in *.
  assert (HX : t * P = 30000 * (N * P) + r * P) by (rewrite Dt at 1; ring).
  assert (Hr : 0 <= r * P <= 29999 * P) by nia.
  assert (Hlow : N * P <= (t * P) / 30000).
  { apply Z.div_le_lower_bound; lia. }
  symmetry. apply (Z.div_unique m P N (m - N * P)); lia.
Qed.

(** Below 2^53 the rounding of the division does not show: the counter is
    the floor of the exact quotient. *)
Lemma counter_of_exact (t : Z) :
  0 <= t < 2 ^ 53 -> counter_of t = t / 30000.
Proof.
  intros Ht. destruct t as [|p|p]; [reflexivity| |lia].
  unfold counter_of, Double.div, TIME_STEP. change (1000 * 30) with 30000.
  change (Z.log2 30000) with 14.
  assert (Hl : Z.log2 (Zpos p) <= 52).
  { assert (Z.log2 (Zpos p) < 53) by (apply Z.log2_lt_pow2; lia). lia. }
  pose proof (Z.log2_nonneg (Zpos p)) as Hl0.
  set (e0 := Z.log2 (Zpos p) - 14 - 52).
  set (e := if Double.scale_den 30000 e0 * 2 ^ 52 <=? Double.scale_num (Zpos p) e0
            then e0 else e0 - 1).
  assert (He : e <= -14) by (unfold e; destruct (_ <=? _); lia).
  unfold Double.floor, Double.scale_num, Double.scale_den.
  destruct (0 <=? e) eqn:E0; [apply Z.leb_le in E0; lia|].
  rewrite (Z.max_r 0 (- e)) by lia. rewrite (Z.max_l 0 e) by lia.
  change (2 ^ 0) with 1. rewrite Z.mul_1_r.
  apply rne_floor; [lia|].
  assert (2 ^ 14 <= 2 ^ (- e)) by (apply Z.pow_le_mono_r; lia).
  change (2 ^ 14) with 16384 in *. lia.
Qed.

(** [counter_of] agrees with the standard library's binary64 division on the
    sample timestamps. *)
Example counter_of_agrees_with_SpecFloat :
  forallb Double.is_double sample_timestamps = true /\
  map sf_counter sample_timestamps = map (fun t => Some (counter_of t)) sample_timestamps.
Proof. split; vm_compute; reflexivity. Qed.

End DoubleDivision.

(** ** Counter *)

Section Counter.

Lemma counter_bytes_unfold (c : Z) :
  0 <= c ->
  counter_bytes c =
    [ (c / 256 ^ 7) mod 256; (c / 256 ^ 6) mod 256; (c / 256 ^ 5) mod 256;
      (c / 256 ^ 4) mod 256; (c / 256 ^ 3) mod 256; (c / 256 ^ 2) mod 256;
      (c / 256 ^ 1) mod 256; (c / 256 ^ 0) mod 256 ].
Proof.
  intros Hc. unfold counter_bytes. cbn [fill_counter List.repeat array_set JS.toUint8].
  assert (Hrem : forall x, 0 <= x -> (Z.rem x 256) mod 256 = x mod 256).
  { intros x Hx. rewrite Z.rem_mod_nonneg by lia. apply Z.mod_mod. lia. }
  assert (Hdiv : forall x k, 0 <= k -> x / 256 ^ k / 256 = x / 256 ^ (k + 1)).
  { intros x k Hk. rewrite Z.pow_add_r, Z.pow_1_r by lia.
    rewrite Z.div_div; [reflexivity | | lia].
    apply Z.pow_nonzero; lia. }
  assert (H0 : c = c / 256 ^ 0) by (rewrite Z.pow_0_r, Z.div_1_r; reflexivity).
  rewrite H0 at 1 2 3 4 5 6 7 8.
  repeat (rewrite Hdiv by lia; cbn [Z.add Pos.add Pos.succ]).
  assert (Hpos : forall k, 0 <= c / 256 ^ k).
  { intros k. destruct (Z.le_gt_cases 0 k).
    - apply Z.div_pos; [lia | apply Z.pow_pos_nonneg; lia].
    - rewrite Z.pow_neg_r by lia. rewrite Z.div_0_r. lia. }
  rewrite !Hrem by apply Hpos.
  reflexivity.
Qed.

Lemma counter_bytes_value (c : Z) :
  0 <= c -> be_value (counter_bytes c) = c mod 2 ^ 64.
Proof.
  intros Hc. rewrite counter_bytes_unfold by assumption.
  unfold be_value. cbn [fold_left].
  change (2 ^ 64) with 18446744073709551616.
  change (256 ^ 7) with 72057594037927936.
  change (256 ^ 6) with 281474976710656.
  change (256 ^ 5) with 1099511627776.
  change (256 ^ 4) with 4294967296.
  change (256 ^ 3) with 16777216.
  change (256 ^ 2) with 65536.
  change (256 ^ 1) with 256.
  change (256 ^ 0) with 1.
  Z.div_mod_to_equations. lia.
Qed.

(** C5, as the specification states it, fails above 2^53: the timestamp
    263882790666269984 is a double, the floor of its exact quotient by 1000
    and then 30 is 8796093022208, and the quotient by 30000 that line 80
    computes rounds up to the integer 8796093022209. *)
Lemma counter_rounds_above_2_53 :
  0 <= 263882790666269984 /\
  Double.is_double 263882790666269984 = true /\
  263882790666269984 / 1000 / 30 = 8796093022208 /\
  counter_of 263882790666269984 = 8796093022209 /\
  counter_of 263882790666269984 <> 263882790666269984 / 1000 / 30.
Proof. repeat split; try (vm_compute; reflexivity); vm_compute; discriminate. Qed.

(** C5, amended.  For an integer timestamp in milliseconds from 0 to below
    2^53 the counter of [generateTOTP] is [floor(timestamp / 1000 / 30)], and
    the message handed to HMAC is that counter in exactly 8 bytes, most
    significant byte first: byte [i] is digit [7 - i] of the counter in base
    256, and the bytes denote the counter itself. *)
Theorem counter_derivation_and_serialization
    (subtle_hmac : list Z -> list Z -> result (list Z))
    (secret : string) (key : list Z) (timestampMillis : Z) :
  0 <= timestampMillis < 2 ^ 53 ->
  let counter := timestampMillis / 1000 / 30 in
  counter_of timestampMillis = counter /\
  generateTOTP subtle_hmac secret timestampMillis =
    (key <- base32Decode secret ;;
     hmac <- generateHMAC subtle_hmac key counter ;;
     Ok (format_otp (truncate hmac))) /\
  generateHMAC subtle_hmac key counter = subtle_hmac key (counter_bytes counter) /\
  List.length (counter_bytes counter) = 8%nat /\
  Forall is_byte (counter_bytes counter) /\
  (forall i, (i < 8)%nat ->
     nth i (counter_bytes counter) 0 = (counter / 256 ^ (7 - Z.of_nat i)) mod 256) /\
  be_value (counter_bytes counter) = counter mod 2 ^ 64 /\
  be_value (counter_bytes counter) = counter.
Proof.
  intros Ht counter.
  assert (Hc : counter_of timestampMillis = counter).
  { rewrite (counter_of_exact _ Ht). unfold counter.
    rewrite Z.div_div by lia. reflexivity. }
  assert (Hpos : 0 <= counter).
  { unfold counter. apply Z.div_pos; [apply Z.div_pos|]; lia. }
  split; [exact Hc|].
  split; [unfold generateTOTP; rewrite Hc; reflexivity|].
  split; [reflexivity|].
  rewrite (counter_bytes_unfold counter Hpos).
  split; [reflexivity|].
  split.
  { repeat constructor; unfold is_byte; apply Z.mod_pos_bound; lia. }
  split.
  { intros i Hi.
    do 8 (destruct i as [|i]; [reflexivity|]). lia. }
  rewrite <- (counter_bytes_unfold counter Hpos).
  split; [apply counter_bytes_value; exact Hpos|].
  rewrite counter_bytes_value by exact Hpos.
  apply Z.mod_small. split; [exact Hpos|].
  destruct Ht as [Ht0 Hlt].
  unfold counter. change (2 ^ 53) with 9007199254740992 in Hlt.
  change (2 ^ 64) with 18446744073709551616.
  Z.div_mod_to_equations. lia.
Qed.

End Counter.

(** ** Dynamic truncation *)

Lemma land_127 (b : Z) : Z.land b 0x7F = b mod 128.
Proof. change 0x7F with (Z.ones 7). rewrite Z.land_ones by lia. reflexivity. Qed.

Section Truncation.

Variable digest : list Z.
Hypothesis digest_ok : is_digest digest.

Let byte (i : Z) : Z := nth (Z.to_nat i) digest 0.
Let offset : Z := byte 19 mod 16.

Lemma digest_get (i : Z) :
  0 <= i <= 19 -> array_get digest (Some i) = Some (byte i) /\ is_byte (byte i).
Proof.
  destruct digest_ok as [Hlen Hbytes].
  intros Hi. unfold byte, array_get.
  destruct (i <? 0) eqn:E; [apply Z.ltb_lt in E; lia|].
  assert (Hn : (Z.to_nat i < List.length digest)%nat) by lia.
  rewrite (nth_error_nth' digest 0 Hn). split; [reflexivity|].
  rewrite Forall_forall in Hbytes. apply Hbytes. apply nth_In. exact Hn.
Qed.

Lemma offset_range : 0 <= offset <= 15.
Proof.
  unfold offset.
  assert (0 <= byte 19 mod 16 < 16) by (apply Z.mod_pos_bound; lia). lia.
Qed.

Lemma offset_of_digest : offset_of digest = Some offset.
Proof.
  unfold offset_of. destruct digest_ok as [Hlen _]. rewrite Hlen.
  change (Z.of_nat 20 - 1) with 19.
  destruct (digest_get 19) as [G B]; [lia|]. unfold is_byte in B.
  rewrite G. cbn [JS.rem option_map].
  rewrite Z.rem_mod_nonneg by lia. reflexivity.
Qed.

Lemma truncate_digest :
  let value :=
    (byte offset mod 128) * 2 ^ 24 + byte (offset + 1) * 2 ^ 16 +
    byte (offset + 2) * 2 ^ 8 + byte (offset + 3) in
  truncate digest = Some value /\ 0 <= value < 2 ^ 31.
Proof.
  intros value. pose proof offset_range as Hrange.
  unfold truncate. rewrite offset_of_digest. cbn [JS.add].
  destruct (digest_get offset) as [G0 B0]; [lia|].
  destruct (digest_get (offset + 1)) as [G1 B1]; [lia|].
  destruct (digest_get (offset + 2)) as [G2 B2]; [lia|].
  destruct (digest_get (offset + 3)) as [G3 B3]; [lia|].
  unfold is_byte in *.
  rewrite Z.add_0_r, G0, G1, G2, G3.
  cbn [JS.rem JS.mul JS.add option_map].
  rewrite !Z.rem_mod_nonneg by lia.
  rewrite !(Z.mod_small _ 256) by lia.
  unfold value.
  change (256 ^ 3) with (2 ^ 24). change (256 ^ 2) with (2 ^ 16).
  change (256 ^ 1) with (2 ^ 8). change (256 ^ 0) with 1.
  rewrite Z.mul_1_r.
  split; [reflexivity|].
  assert (0 <= byte offset mod 128 < 128) by (apply Z.mod_pos_bound; lia).
  change (2 ^ 24) with 16777216. change (2 ^ 16) with 65536.
  change (2 ^ 8) with 256. change (2 ^ 31) with 2147483648.
  lia.
Qed.

End Truncation.

(** C4.  On a digest of 20 bytes the offset is [digest[19] mod 16], it lies
    in [0, 15], the four indices [offset .. offset + 3] are indices of the
    digest, and [binary] is
    [(digest[offset] & 0x7F) * 2^24 + digest[offset+1] * 2^16 +
     digest[offset+2] * 2^8 + digest[offset+3]], where [& 0x7F] is the
    [% 128] of the code and the other three bytes are taken whole; the value
    is non-negative and below 2^31. *)
Theorem dynamic_truncation (digest : list Z) :
  List.length digest = 20%nat ->
  Forall is_byte digest ->
  let byte i := nth (Z.to_nat i) digest 0 in
  let offset := byte 19 mod 16 in
  let value :=
    Z.land (byte offset) 0x7F * 2 ^ 24 + byte (offset + 1) * 2 ^ 16 +
    byte (offset + 2) * 2 ^ 8 + byte (offset + 3) in
  offset_of digest = Some offset /\
  0 <= offset <= 15 /\ offset + 3 <= 19 /\
  (forall k, 0 <= k <= 3 ->
     array_get digest (Some (offset + k)) = Some (byte (offset + k)) /\
     0 <= byte (offset + k) <= 255) /\
  Z.land (byte offset) 0x7F = byte offset mod 128 /\
  truncate digest = Some value /\
  0 <= value < 2 ^ 31 /\
  (forall subtle_hmac secret timestamp key,
      base32Decode secret = Ok key ->
      generateHMAC subtle_hmac key (counter_of timestamp) = Ok digest ->
      generateTOTP subtle_hmac secret timestamp = Ok (format_otp (Some value))).
Proof.
  intros Hlen Hbytes byte offset value.
  assert (Hd : is_digest digest) by (split; assumption).
  pose proof (offset_range digest) as Hrange.
  split; [apply offset_of_digest; exact Hd|].
  split; [exact Hrange|].
  split; [fold byte offset in Hrange; lia|].
  split.
  { intros k Hk. destruct (digest_get digest Hd (offset + k)) as [G B].
    - fold byte offset in Hrange. lia.
    - unfold is_byte in B. split; [exact G | unfold byte; lia]. }
  split; [apply land_127|].
  assert (Ht : truncate digest = Some value /\ 0 <= value < 2 ^ 31).
  { unfold value. rewrite land_127. apply (truncate_digest digest Hd). }
  destruct Ht as [Ht Hv].
  split; [exact Ht|]. split; [exact Hv|].
  intros subtle_hmac secret timestamp key Ek Eh.
  unfold generateTOTP. rewrite Ek. cbn [bind]. rewrite Eh. cbn [bind].
  rewrite Ht. reflexivity.
Qed.

(** ** Verification and the time window *)

Section Verify.

Variable subtle_hmac : list Z -> list Z -> result (list Z).

Lemma verifyTOTP_of_generate (secret userToken code : string) (timestamp : Z) :
  generateTOTP subtle_hmac secret timestamp = Ok code ->
  verifyTOTP subtle_hmac secret userToken timestamp = Ok (String.eqb code userToken).
Proof. intros H. unfold verifyTOTP. rewrite H. reflexivity. Qed.

(** C6.  When generation succeeds with [code], [verifyTOTP] returns [true]
    exactly on the candidate that equals [code] and [false] on every other
    candidate, without throwing; on [code] itself it returns [true]. *)
Theorem verification_correctness (secret candidate code : string) (timestamp : Z) :
  generateTOTP subtle_hmac secret timestamp = Ok code ->
  (candidate = code -> verifyTOTP subtle_hmac secret candidate timestamp = Ok true) /\
  (candidate <> code -> verifyTOTP subtle_hmac secret candidate timestamp = Ok false) /\
  (exists b, verifyTOTP subtle_hmac secret candidate timestamp = Ok b) /\
  verifyTOTP subtle_hmac secret code timestamp = Ok true.
Proof.
  intros H.
  rewrite !(verifyTOTP_of_generate _ _ _ _ H).
  repeat split.
  - intros ->. rewrite String.eqb_refl. reflexivity.
  - intros Hne. destruct (String.eqb_spec code candidate); [congruence | reflexivity].
  - eexists. reflexivity.
  - rewrite String.eqb_refl. reflexivity.
Qed.

(** C8, amended.  Two timestamps from 0 to below 2^53 that lie in the same
    30-second step give the same result of [generateTOTP], for any secret
    and any fixed HMAC function; so do 0 ms and 29999 ms. *)
Theorem window_boundary (secret : string) :
  (forall t1 t2 : Z,
      0 <= t1 < 2 ^ 53 -> 0 <= t2 < 2 ^ 53 -> t1 / 30000 = t2 / 30000 ->
      generateTOTP subtle_hmac secret t1 = generateTOTP subtle_hmac secret t2) /\
  generateTOTP subtle_hmac secret 0 = generateTOTP subtle_hmac secret 29999.
Proof.
  assert (H : forall t1 t2 : Z,
            0 <= t1 < 2 ^ 53 -> 0 <= t2 < 2 ^ 53 -> t1 / 30000 = t2 / 30000 ->
            generateTOTP subtle_hmac secret t1 = generateTOTP subtle_hmac secret t2).
  { intros t1 t2 H1 H2 E. unfold generateTOTP.
    rewrite (counter_of_exact t1 H1), (counter_of_exact t2 H2), E. reflexivity. }
  split.
  - exact H.
  - apply H; [split; [discriminate | reflexivity] .. | reflexivity].
Qed.

End Verify.

(** C8, as the specification states it, fails above 2^53: the timestamps
    263882790666269952 and 263882790666269984 are doubles with the same exact
    floor of the quotient by 30000, but line 80 rounds the second quotient
    up to the next integer, so the two HMAC messages and the two codes
    differ (here with HMAC-SHA-1 and the key of RFC 6238). *)
Lemma window_breaks_above_2_53 :
  0 <= 263882790666269952 /\ 0 <= 263882790666269984 /\
  Double.is_double 263882790666269952 = true /\
  Double.is_double 263882790666269984 = true /\
  263882790666269952 / 30000 = 263882790666269984 / 30000 /\
  counter_of 263882790666269952 = 8796093022208 /\
  counter_of 263882790666269984 = 8796093022209 /\
  generateTOTP RefCrypto.subtle_hmac rfc6238_secret 263882790666269952 = Ok "660469" /\
  generateTOTP RefCrypto.subtle_hmac rfc6238_secret 263882790666269984 = Ok "349976" /\
  generateTOTP RefCrypto.subtle_hmac rfc6238_secret 263882790666269952 <>
    generateTOTP RefCrypto.subtle_hmac rfc6238_secret 263882790666269984.
Proof. repeat split; try (vm_compute; reflexivity); vm_compute; discriminate. Qed.

(** ** The six-digit code *)

Section Format.

Lemma digit_code (d : Z) :
  0 <= d < 10 -> Z.of_N (N_of_ascii (JS.digit d)) = 48 + d.
Proof.
  intros Hd. unfold JS.digit. rewrite N_ascii_embedding by lia. lia.
Qed.

Lemma digit_is_digit (d : Z) : 0 <= d < 10 -> is_decimal_digit (JS.digit d) = true.
Proof.
  intros Hd. unfold is_decimal_digit, JS.digit.
  rewrite N_ascii_embedding by lia.
  apply andb_true_intro. split; apply N.leb_le; lia.
Qed.

(** [toString10_from] with enough fuel prepends the decimal digits of [n],
    at most [k] of them when [n < 10^k]. *)
Lemma toString10_from_spec (k : nat) :
  forall (fuel : nat) (n : Z) (acc : string),
    (1 <= k <= fuel)%nat -> 0 <= n < 10 ^ Z.of_nat k ->
    exists ds,
      JS.toString10_from fuel n acc = ds ++ acc /\
      (1 <= JS.length ds <= k)%nat /\
      all_digits ds = true /\
      forall v, decimal_from v ds = v * 10 ^ Z.of_nat (JS.length ds) + n.
Proof.
  induction k as [|k IH]; intros fuel n acc Hk Hn; [lia|].
  destruct fuel as [|fuel]; [lia|].
  cbn [JS.toString10_from].
  assert (Hm : 0 <= n mod 10 < 10) by (apply Z.mod_pos_bound; lia).
  destruct (n / 10 =? 0) eqn:E.
  - apply Z.eqb_eq in E.
    exists (String (JS.digit (n mod 10)) "").
    split; [reflexivity|]. split; [cbn; lia|].
    split; [cbn; rewrite digit_is_digit by lia; reflexivity|].
    intros v. cbn. rewrite digit_code by lia.
    Z.div_mod_to_equations. lia.
  - apply Z.eqb_neq in E.
    assert (Hk2 : (1 <= k)%nat).
    { destruct k; [|lia]. change (10 ^ Z.of_nat 1) with 10 in Hn.
      exfalso. apply E. apply Z.div_small. lia. }
    destruct (IH fuel (n / 10) (String (JS.digit (n mod 10)) acc)) as (ds & E1 & L & D & V).
    + lia.
    + rewrite Nat2Z.inj_succ, Z.pow_succ_r in Hn by lia.
      Z.div_mod_to_equations. lia.
    + exists (ds ++ String (JS.digit (n mod 10)) "").
      split; [rewrite E1, append_assoc; reflexivity|].
      split; [rewrite length_append; cbn; lia|].
      split; [rewrite all_digits_append, D; cbn; rewrite digit_is_digit by lia; reflexivity|].
      intros v. rewrite decimal_from_append, V. cbn.
      rewrite digit_code by lia.
      rewrite length_append. cbn [JS.length String.length].
      replace (Z.of_nat (JS.length ds + 1)) with (Z.succ (Z.of_nat (JS.length ds))) by lia.
      rewrite Z.pow_succ_r by lia.
      Z.div_mod_to_equations. lia.
Qed.

Lemma toString10_spec (n : Z) :
  0 <= n < 1000000 ->
  (1 <= JS.length (JS.toString10 n) <= 6)%nat /\
  all_digits (JS.toString10 n) = true /\
  decimal_value (JS.toString10 n) = n.
Proof.
  intros Hn.
  assert (E : JS.toString10 n =
              JS.toString10_from (S (Z.to_nat (Z.log2 n))) n "").
  { destruct n; try reflexivity. lia. }
  rewrite E. clear E.
  set (fuel := S (Z.to_nat (Z.log2 n))).
  assert (Hfuel : n < 10 ^ Z.of_nat fuel).
  { destruct (Z.eq_dec n 0) as [->|Hnz]; [reflexivity|].
    pose proof (Z.log2_nonneg n) as Hl.
    destruct (Z.log2_spec n) as [_ Hlt]; [lia|].
    unfold fuel. rewrite Nat2Z.inj_succ, Z2Nat.id by exact Hl.
    eapply Z.lt_le_trans; [exact Hlt|].
    apply Z.pow_le_mono_l. lia. }
  destruct (le_lt_dec 6 fuel) as [Hge|Hlt].
  - destruct (toString10_from_spec 6 fuel n "") as (ds & E1 & L & D & V);
      [lia | change (10 ^ Z.of_nat 6) with 1000000; lia |].
    rewrite E1, append_nil_r. unfold decimal_value. rewrite V.
    repeat split; try lia; exact D.
  - destruct (toString10_from_spec fuel fuel n "") as (ds & E1 & L & D & V);
      [unfold fuel; lia | lia |].
    rewrite E1, append_nil_r. unfold decimal_value. rewrite V.
    repeat split; try lia; exact D.
Qed.

(** Lines 114 and 115 on a non-negative [binary]. *)
Lemma format_otp_spec (binary : Z) :
  0 <= binary ->
  let code := format_otp (Some binary) in
  code = JS.padStart 6 "0" (JS.toString10 (binary mod 1000000)) /\
  JS.length code = 6%nat /\
  all_digits code = true /\
  decimal_value code = binary mod 1000000.
Proof.
  intros Hb code.
  assert (Hm : 0 <= binary mod 1000000 < 1000000) by (apply Z.mod_pos_bound; lia).
  assert (E : code = JS.padStart 6 "0" (JS.toString10 (binary mod 1000000))).
  { unfold code, format_otp. cbn [JS.rem option_map JS.toString].
    rewrite Z.rem_mod_nonneg by lia. reflexivity. }
  destruct (toString10_spec _ Hm) as (L & D & V).
  split; [exact E|]. rewrite E.
  split; [apply length_padStart; lia|].
  unfold JS.padStart.
  split.
  - rewrite all_digits_append, all_digits_zeros, D. reflexivity.
  - unfold decimal_value in *. rewrite decimal_from_append, decimal_from_zeros. exact V.
Qed.

End Format.

(** ** Generation under the contract of the HMAC provider *)

Section Generate.

Variable subtle_hmac : list Z -> list Z -> result (list Z).
Hypothesis hmac_ok : digest_contract subtle_hmac.

(** A successful [generateTOTP] went through a key, a digest of 20 bytes
    and its truncated value. *)
Lemma generateTOTP_Ok (secret code : string) (timestamp : Z) :
  generateTOTP subtle_hmac secret timestamp = Ok code ->
  exists key digest value,
    base32Decode secret = Ok key /\
    generateHMAC subtle_hmac key (counter_of timestamp) = Ok digest /\
    is_digest digest /\
    truncate digest = Some value /\
    0 <= value < 2 ^ 31 /\
    code = format_otp (Some value).
Proof.
  unfold generateTOTP. intros H.
  destruct (base32Decode secret) as [key|e] eqn:Ek; [|discriminate H].
  cbn [bind] in H.
  destruct (generateHMAC subtle_hmac key (counter_of timestamp)) as [digest|e] eqn:Eh;
    [|discriminate H].
  cbn [bind] in H.
  assert (Hd : is_digest digest) by (apply (hmac_ok _ _ _ Eh)).
  destruct (truncate_digest digest Hd) as [Et Hv].
  exists key, digest. eexists.
  repeat split; try eassumption; try apply Hd; try apply Hv.
  rewrite Et in H. injection H as <-. reflexivity.
Qed.

(** C7.  A code that [generateTOTP] returns has exactly 6 characters, all
    of them decimal digits, and is the decimal rendering, padded with
    zeros on the left, of the truncated value modulo 1,000,000; the value
    42 renders as "000042". *)
Theorem fixed_width (secret code : string) (timestamp : Z) :
  generateTOTP subtle_hmac secret timestamp = Ok code ->
  JS.length code = 6%nat /\
  all_digits code = true /\
  (exists key digest value,
      base32Decode secret = Ok key /\
      generateHMAC subtle_hmac key (counter_of timestamp) = Ok digest /\
      truncate digest = Some value /\
      code = JS.padStart 6 "0" (JS.toString10 (value mod 1000000)) /\
      decimal_value code = value mod 1000000) /\
  format_otp (Some 42) = "000042".
Proof.
  intros H.
  destruct (generateTOTP_Ok _ _ _ H) as (key & digest & value & Ek & Eh & _ & Et & Hv & ->).
  destruct (format_otp_spec value) as (E & L & D & V); [lia|].
  split; [exact L|]. split; [exact D|].
  split; [|reflexivity].
  exists key, digest, value. repeat split; assumption.
Qed.

(** C10.  When generation succeeds, [verifyTOTP] returns [false] on every
    candidate whose length is not 6. *)
Theorem verify_rejects_other_lengths (secret candidate code : string) (timestamp : Z) :
  generateTOTP subtle_hmac secret timestamp = Ok code ->
  JS.length candidate <> 6%nat ->
  verifyTOTP subtle_hmac secret candidate timestamp = Ok false.
Proof.
  intros H Hlen.
  rewrite (verifyTOTP_of_generate _ _ _ _ _ H).
  destruct (String.eqb_spec code candidate) as [<-|Hne]; [|reflexivity].
  exfalso. apply Hlen.
  destruct (generateTOTP_Ok _ _ _ H) as (key & digest & value & _ & _ & _ & _ & Hv & ->).
  destruct (format_otp_spec value) as (_ & L & _); [lia|]. exact L.
Qed.

End Generate.

(** ** The reference HMAC-SHA-1 meets the contract *)

Section Reference.

Lemma be_bytes_length (n : nat) (x : Z) : List.length (RefCrypto.be_bytes n x) = n.
Proof.
  revert x. induction n as [|n IH]; intros x; cbn [RefCrypto.be_bytes]; [reflexivity|].
  rewrite length_app, IH. cbn. lia.
Qed.

Lemma be_bytes_bytes (n : nat) (x : Z) : Forall is_byte (RefCrypto.be_bytes n x).
Proof.
  revert x. induction n as [|n IH]; intros x; cbn [RefCrypto.be_bytes]; [constructor|].
  apply Forall_app. split; [apply IH|].
  constructor; [|constructor]. unfold is_byte. apply Z.mod_pos_bound. lia.
Qed.

Lemma sha1_is_digest (msg : list Z) : is_digest (RefCrypto.sha1 msg).
Proof.
  unfold RefCrypto.sha1.
  destruct (RefCrypto.blocks _ _ _) as [[[[h0 h1] h2] h3] h4].
  split.
  - rewrite !length_app, !be_bytes_length. reflexivity.
  - do 4 (apply Forall_app; split; [apply be_bytes_bytes|]). apply be_bytes_bytes.
Qed.

Lemma subtle_hmac_contract : digest_contract RefCrypto.subtle_hmac.
Proof.
  intros key msg d H. unfold RefCrypto.subtle_hmac in H.
  destruct key as [|b key]; [discriminate H|].
  injection H as <-. apply sha1_is_digest.
Qed.

End Reference.

(** ** Finite checks *)

Section Finite.

Lemma forall_below_spec (n : nat) (p : Z -> bool) :
  forall_below n p = true -> forall z, 0 <= z < Z.of_nat n -> p z = true.
Proof.
  induction n as [|n IH]; intros H z Hz; [lia|].
  cbn [forall_below] in H. apply andb_prop in H. destruct H as [H1 H2].
  destruct (Z.eq_dec z (Z.of_nat n)) as [->|Hne]; [exact H1|].
  apply IH; [exact H2 | lia].
Qed.

Lemma forall_ascii (p : ascii -> bool) :
  forall_below 256 (fun z => p (ascii_of_N (Z.to_N z))) = true ->
  forall c, p c = true.
Proof.
  intros H c. pose proof (N_ascii_bounded c) as Hb.
  rewrite <- (ascii_N_embedding c).
  rewrite <- (N2Z.id (N_of_ascii c)).
  apply (forall_below_spec 256 _ H). lia.
Qed.

End Finite.

(** ** Binary digits *)

Section Binary.

Lemma is_binary_append (a b : string) :
  is_binary (a ++ b) = is_binary a && is_binary b.
Proof.
  induction a as [|x a IH]; cbn; [reflexivity|].
  rewrite IH, andb_assoc. reflexivity.
Qed.

Lemma is_binary_take (n : nat) (s : string) :
  is_binary s = true -> is_binary (JS.take n s) = true.
Proof.
  revert s. induction n as [|n IH]; intros [|c s] H; cbn; try reflexivity.
  cbn in H. apply andb_prop in H. destruct H as [H1 H2].
  rewrite H1, (IH _ H2). reflexivity.
Qed.

Lemma is_binary_drop (n : nat) (s : string) :
  is_binary s = true -> is_binary (JS.drop n s) = true.
Proof.
  revert s. induction n as [|n IH]; intros [|c s] H; cbn; try assumption.
  cbn in H. apply andb_prop in H. apply IH, H.
Qed.

Lemma binary_char (c : ascii) :
  (Ascii.eqb c "0" || Ascii.eqb c "1") = true -> c = "0"%char \/ c = "1"%char.
Proof.
  intros H. apply orb_prop in H.
  destruct H as [H|H]; apply Ascii.eqb_eq in H; [left | right]; exact H.
Qed.

(** On binary digits [parseInt(s, 2)] reads the whole string. *)
Lemma parseInt2_from_binary (s : string) (acc : Z) :
  is_binary s = true -> JS.parseInt2_from acc s = bin_from acc s.
Proof.
  revert acc. induction s as [|c s IH]; intros acc H; [reflexivity|].
  cbn [is_binary] in H. apply andb_prop in H. destruct H as [Hc Hs].
  destruct (binary_char c Hc) as [-> | ->]; cbn.
  - rewrite Z.add_0_r. apply IH, Hs.
  - apply IH, Hs.
Qed.

Lemma parseInt2_binary (s : string) :
  is_binary s = true -> s <> "" -> JS.parseInt2 s = Some (bin_value s).
Proof.
  intros H Hne. destruct s as [|c r]; [congruence|].
  unfold JS.parseInt2, bin_value. rewrite <- (parseInt2_from_binary _ 0 H).
  cbn [is_binary] in H. apply andb_prop in H. destruct H as [Hc _].
  destruct (binary_char c Hc) as [-> | ->]; reflexivity.
Qed.

Lemma bin_from_bound (s : string) (acc : Z) :
  0 <= acc ->
  acc * 2 ^ Z.of_nat (JS.length s) <= bin_from acc s
    < (acc + 1) * 2 ^ Z.of_nat (JS.length s).
Proof.
  revert acc. induction s as [|c s IH]; intros acc Hacc.
  - cbn. lia.
  - cbn [bin_from]. unfold JS.length in *. cbn [String.length].
    rewrite Nat2Z.inj_succ, Z.pow_succ_r by lia.
    set (b := if Ascii.eqb c "1" then 1 else 0).
    assert (Hb : 0 <= b <= 1) by (unfold b; destruct (Ascii.eqb c "1"); lia).
    specialize (IH (2 * acc + b) ltac:(lia)).
    assert (0 < 2 ^ Z.of_nat (String.length s)) by (apply Z.pow_pos_nonneg; lia).
    nia.
Qed.

Lemma bin_value_byte (s : string) :
  (JS.length s <= 8)%nat -> 0 <= bin_value s < 256.
Proof.
  intros H. pose proof (bin_from_bound s 0 ltac:(lia)) as B. unfold bin_value.
  assert (2 ^ Z.of_nat (JS.length s) <= 2 ^ 8) by (apply Z.pow_le_mono_r; lia).
  change (2 ^ 8) with 256 in *. lia.
Qed.

End Binary.

(** ** Slices *)

Section Slices.

Lemma length_take (n : nat) (s : string) :
  JS.length (JS.take n s) = Nat.min n (JS.length s).
Proof.
  unfold JS.length. revert s.
  induction n as [|n IH]; intros [|c s]; cbn; try reflexivity.
  rewrite IH. reflexivity.
Qed.

Lemma length_drop (n : nat) (s : string) :
  JS.length (JS.drop n s) = (JS.length s - n)%nat.
Proof.
  unfold JS.length. revert s.
  induction n as [|n IH]; intros [|c s]; cbn; try reflexivity.
  apply IH.
Qed.

Lemma take_all (n : nat) (s : string) :
  (JS.length s <= n)%nat -> JS.take n s = s.
Proof.
  unfold JS.length. revert s.
  induction n as [|n IH]; intros [|c s] H; cbn in *; try reflexivity; try lia.
  rewrite IH by lia. reflexivity.
Qed.

Lemma drop_all (n : nat) (s : string) :
  (JS.length s <= n)%nat -> JS.drop n s = "".
Proof.
  unfold JS.length. revert s.
  induction n as [|n IH]; intros [|c s] H; cbn in *; try reflexivity; try lia.
  apply IH. lia.
Qed.

Lemma drop_drop (a b : nat) (s : string) :
  JS.drop a (JS.drop b s) = JS.drop (b + a) s.
Proof.
  revert s. induction b as [|b IH]; intros s; [reflexivity|].
  destruct s as [|c s]; cbn [JS.drop Nat.add].
  - destruct a; reflexivity.
  - apply IH.
Qed.

Lemma take_drop (n : nat) (s : string) : JS.take n s ++ JS.drop n s = s.
Proof.
  revert s. induction n as [|n IH]; intros [|c s]; cbn; try reflexivity.
  rewrite IH. reflexivity.
Qed.

Lemma take_append (a b : string) : JS.take (JS.length a) (a ++ b) = a.
Proof.
  unfold JS.length. induction a as [|c a IH]; cbn; [destruct b|rewrite IH]; reflexivity.
Qed.

Lemma drop_append (a b : string) : JS.drop (JS.length a) (a ++ b) = b.
Proof.
  unfold JS.length. induction a as [|c a IH]; cbn; [destruct b; reflexivity | exact IH].
Qed.

Lemma slice_take_drop (i k : nat) (s : string) :
  JS.slice i (i + k) s = JS.take k (JS.drop i s).
Proof. unfold JS.slice. replace (i + k - i)%nat with k by lia. reflexivity. Qed.

Lemma length_zero (s : string) : JS.length s = 0%nat -> s = "".
Proof. destruct s; [reflexivity | discriminate]. Qed.

End Slices.

(** ** The 8-bit groups of [base32Decode] *)

Section Groups.

Lemma complete_groups_short (s : string) :
  (JS.length s < 8)%nat -> complete_groups s = [] /\ trailing_group s = s.
Proof.
  intros H. unfold complete_groups, trailing_group.
  rewrite Nat.div_small by exact H. split; reflexivity.
Qed.

Lemma groups_long (s : string) :
  (8 <= JS.length s)%nat ->
  complete_groups s = bin_value (JS.take 8 s) :: complete_groups (JS.drop 8 s) /\
  trailing_group s = trailing_group (JS.drop 8 s).
Proof.
  intros H. unfold complete_groups, trailing_group.
  rewrite length_drop.
  assert (E : (JS.length s / 8 = S ((JS.length s - 8) / 8))%nat).
  { replace (JS.length s) with (1 * 8 + (JS.length s - 8))%nat at 1 by lia.
    rewrite Nat.div_add_l by lia. reflexivity. }
  rewrite E. split; [reflexivity|].
  rewrite drop_drop. f_equal. lia.
Qed.

(** One turn of the loop: the group read at the front of the rest of the
    bit stream, whether it has 8 bits or fewer. *)
Lemma groups_step (s : string) :
  is_binary s = true -> s <> "" ->
  (complete_groups s ++ partial_group s =
     JS.toUint8 (JS.parseInt2 (JS.take 8 s))
       :: (complete_groups (JS.drop 8 s) ++ partial_group (JS.drop 8 s)))%list.
Proof.
  intros Hb Hne.
  assert (Hlen : (0 < JS.length s)%nat).
  { destruct s; [congruence | cbn; lia]. }
  assert (Ht : JS.take 8 s <> "").
  { intros E. apply (f_equal JS.length) in E. rewrite length_take in E.
    change (JS.length "") with 0%nat in E. lia. }
  rewrite (parseInt2_binary _ (is_binary_take 8 s Hb) Ht). cbn [JS.toUint8].
  rewrite Z.mod_small
    by (apply bin_value_byte; rewrite length_take; lia).
  destruct (le_lt_dec 8 (JS.length s)) as [Hge|Hlt].
  - destruct (groups_long s Hge) as [E1 E2].
    unfold partial_group. rewrite E1, E2. reflexivity.
  - destruct (complete_groups_short s Hlt) as [E1 E2].
    unfold partial_group at 1. rewrite E1, E2.
    rewrite (take_all 8 s) by lia. rewrite (drop_all 8 s) by lia.
    destruct s as [|c r]; [congruence|]. reflexivity.
Qed.

(** The second loop of [base32Decode] leaves by its own test, and it
    produces the complete groups followed by the byte of the partial one. *)
Lemma decode_groups_spec (bits : string) :
  is_binary bits = true ->
  forall (fuel i : nat) (output : list (option Z)),
    (JS.length bits - i <= 8 * fuel)%nat ->
    map JS.toUint8 (decode_groups fuel bits i output) =
      (map JS.toUint8 output
         ++ complete_groups (JS.drop i bits) ++ partial_group (JS.drop i bits))%list.
Proof.
  intros Hb. induction fuel as [|fuel IH]; intros i output Hfuel.
  - cbn [decode_groups]. rewrite (drop_all i bits) by lia.
    cbn. rewrite app_nil_r. reflexivity.
  - cbn [decode_groups]. destruct (i <? JS.length bits)%nat eqn:E.
    + apply Nat.ltb_lt in E.
      rewrite IH by lia.
      rewrite map_app. cbn [map]. rewrite <- app_assoc. f_equal. cbn [app].
      rewrite slice_take_drop.
      rewrite (groups_step (JS.drop i bits)).
      * rewrite drop_drop. reflexivity.
      * apply is_binary_drop, Hb.
      * intros E0. apply (f_equal JS.length) in E0. rewrite length_drop in E0.
        change (JS.length "") with 0%nat in E0. lia.
    + apply Nat.ltb_ge in E. rewrite (drop_all i bits) by lia.
      cbn. rewrite app_nil_r. reflexivity.
Qed.

End Groups.

(** ** The characters of [base32Decode] *)

Section Lookup.

Lemma lookup_range (c : ascii) (v : Z) :
  base32Lookup c = Some v -> 0 <= v < 32.
Proof.
  intros H.
  assert (P : (match base32Lookup c with
               | Some v => (0 <=? v) && (v <? 32)
               | None => true
               end) = true).
  { revert c H. intros c _. revert c. apply forall_ascii. vm_compute. reflexivity. }
  rewrite H in P. apply andb_prop in P. destruct P as [P1 P2].
  apply Z.leb_le in P1. apply Z.ltb_lt in P2. lia.
Qed.

(** The lookup table is the inverse of the alphabet. *)
Lemma lookup_alphabet (c : ascii) :
  match base32Lookup c with
  | Some v => JS.charAt (Z.to_nat v) alphabet = Some c /\ in_alphabet c = true
  | None => in_alphabet c = false
  end.
Proof.
  assert (P : (match base32Lookup c with
               | Some v =>
                   match JS.charAt (Z.to_nat v) alphabet with
                   | Some c' => Ascii.eqb c' c
                   | None => false
                   end && in_alphabet c
               | None => negb (in_alphabet c)
               end) = true).
  { revert c. apply forall_ascii. vm_compute. reflexivity. }
  destruct (base32Lookup c) as [v|].
  - apply andb_prop in P. destruct P as [P1 P2]. split; [|exact P2].
    destruct (JS.charAt (Z.to_nat v) alphabet) as [c'|]; [|discriminate P1].
    apply Ascii.eqb_eq in P1. rewrite P1. reflexivity.
  - apply negb_true_iff in P. exact P.
Qed.

Lemma five_bits_spec (v : Z) :
  0 <= v < 32 ->
  is_binary (five_bits v) = true /\ JS.length (five_bits v) = 5%nat /\
  bin_value (five_bits v) = v.
Proof.
  intros Hv.
  assert (P : (is_binary (five_bits v) && (JS.length (five_bits v) =? 5)%nat
               && (bin_value (five_bits v) =? v)) = true).
  { revert v Hv. apply (forall_below_spec 32). vm_compute. reflexivity. }
  apply andb_prop in P. destruct P as [P P3].
  apply andb_prop in P. destruct P as [P1 P2].
  apply Nat.eqb_eq in P2. apply Z.eqb_eq in P3. auto.
Qed.

Lemma accepted_spec (c : ascii) :
  accepted c = true <->
  exists v, base32Lookup (JS.toUpperCase c) = Some v /\ v <> 0.
Proof.
  unfold accepted, not_val.
  destruct (base32Lookup (JS.toUpperCase c)) as [v|]; cbn.
  - rewrite negb_true_iff, Z.eqb_neq. split.
    + intros H. exists v. auto.
    + intros (v' & E & H). injection E as <-. exact H.
  - split; [discriminate | intros (v & E & _); discriminate E].
Qed.

Lemma equals_rejected : accepted "=" = false.
Proof. reflexivity. Qed.

(** The first loop either throws, on the first character that it does not
    accept, or appends five binary digits per character. *)
Lemma decode_chars_throws (s : string) :
  forall bits, forallb accepted (chars s) = false ->
               decode_chars s bits = Throw InvalidBase32.
Proof.
  induction s as [|c s IH]; intros bits H; [discriminate H|].
  cbn [chars forallb] in H. cbn [decode_chars].
  unfold accepted in H at 1.
  destruct (not_val (base32Lookup (JS.toUpperCase c))) eqn:E; [reflexivity|].
  cbn [negb andb] in H.
  destruct (base32Lookup (JS.toUpperCase c)) as [v|]; [|reflexivity].
  apply IH, H.
Qed.

Lemma decode_chars_succeeds (s : string) :
  forall bits0,
    forallb accepted (chars s) = true ->
    is_binary bits0 = true ->
    exists bits,
      decode_chars s bits0 = Ok bits /\ is_binary bits = true /\
      JS.length bits = (JS.length bits0 + 5 * JS.length s)%nat.
Proof.
  induction s as [|c s IH]; intros bits0 H Hb.
  - exists bits0. cbn. repeat split; [exact Hb | lia].
  - cbn [chars forallb] in H. apply andb_prop in H. destruct H as [Hc Hs].
    pose proof Hc as Hc'. apply accepted_spec in Hc'. destruct Hc' as (v & Ev & Hv).
    cbn [decode_chars]. unfold accepted in Hc. apply negb_true_iff in Hc.
    rewrite Hc, Ev. fold (five_bits v).
    destruct (five_bits_spec v (lookup_range _ _ Ev)) as (F1 & F2 & _).
    destruct (IH (bits0 ++ five_bits v) Hs) as (bits & E & B & L).
    + rewrite is_binary_append, Hb, F1. reflexivity.
    + exists bits. split; [exact E|]. split; [exact B|].
      rewrite L, length_append, F2. cbn [JS.length String.length].
      unfold JS.length. lia.
Qed.

Lemma decode_chars_cases (s bits0 : string) :
  match decode_chars s bits0 with
  | Ok _ => forallb accepted (chars s) = true
  | Throw e => e = InvalidBase32 /\ forallb accepted (chars s) = false
  end.
Proof.
  destruct (forallb accepted (chars s)) eqn:E.
  - revert bits0. induction s as [|c s IH]; intros bits0; [reflexivity|].
    cbn [chars forallb] in E. apply andb_prop in E. destruct E as [Hc Hs].
    cbn [decode_chars]. unfold accepted in Hc. apply negb_true_iff in Hc. rewrite Hc.
    destruct (base32Lookup (JS.toUpperCase c)) as [v|]; [|discriminate Hc].
    apply IH, Hs.
  - rewrite (decode_chars_throws s bits0 E). auto.
Qed.

End Lookup.

(** ** Trailing padding and the errors of [base32Decode] *)

Section Decode.

Lemma chars_append (a b : string) : chars (a ++ b) = (chars a ++ chars b)%list.
Proof. induction a as [|c a IH]; cbn; [|rewrite IH]; reflexivity. Qed.

Lemma strip_keeps_non_equals (c : ascii) (d : string) :
  c <> "="%char -> exists r, JS.stripTrailingEquals (String c d) = String c r.
Proof.
  intros Hc. cbn [JS.stripTrailingEquals].
  destruct (JS.stripTrailingEquals d) as [|x r].
  - apply Ascii.eqb_neq in Hc. rewrite Hc. exists "". reflexivity.
  - exists (String x r). reflexivity.
Qed.

(** What precedes a character that is kept is kept, too. *)
Lemma strip_append (x y : string) (c : ascii) (r : string) :
  JS.stripTrailingEquals y = String c r ->
  JS.stripTrailingEquals (x ++ y) = x ++ String c r.
Proof.
  intros Hy. induction x as [|a x IH]; [exact Hy|].
  cbn [append JS.stripTrailingEquals]. rewrite IH.
  destruct x; reflexivity.
Qed.

Lemma charAt_split (i : nat) (s : string) (c : ascii) :
  JS.charAt i s = Some c -> s = JS.take i s ++ String c (JS.drop (S i) s).
Proof.
  revert i. induction s as [|x s IH]; intros i H; [destruct i; discriminate H|].
  destruct i as [|i]; cbn in H.
  - injection H as ->. destruct s; reflexivity.
  - cbn [JS.take JS.drop append]. f_equal. apply IH, H.
Qed.

Lemma charAt_drop (i j : nat) (s : string) :
  JS.charAt j (JS.drop i s) = JS.charAt (i + j) s.
Proof.
  revert s. induction i as [|i IH]; intros s.
  - destruct s; reflexivity.
  - destruct s as [|x s]; [destruct j; reflexivity|]. cbn. apply IH.
Qed.

Lemma base32Decode_cases (base32 : string) :
  match base32Decode base32 with
  | Ok _ => forallb accepted (chars (JS.stripTrailingEquals base32)) = true
  | Throw e =>
      e = InvalidBase32 /\
      forallb accepted (chars (JS.stripTrailingEquals base32)) = false
  end.
Proof.
  unfold base32Decode.
  pose proof (decode_chars_cases (JS.stripTrailingEquals base32) "") as H.
  destruct (decode_chars (JS.stripTrailingEquals base32) "") as [bits|e]; exact H.
Qed.

(** [base32Decode] throws exactly when a character that is left after the
    trailing ['='] are removed is, in upper case, outside the alphabet or
    the character ['A']. *)
Lemma base32Decode_throws_iff (base32 : string) :
  base32Decode base32 = Throw InvalidBase32 <->
  exists c, In c (chars (JS.stripTrailingEquals base32)) /\
            (in_alphabet (JS.toUpperCase c) = false \/ JS.toUpperCase c = "A"%char).
Proof.
  pose proof (base32Decode_cases base32) as H.
  assert (Hacc : forall c, accepted c = false <->
                   in_alphabet (JS.toUpperCase c) = false \/ JS.toUpperCase c = "A"%char).
  { intros c.
    assert (P : (Bool.eqb (accepted c)
                   (negb (negb (in_alphabet (JS.toUpperCase c))
                          || Ascii.eqb (JS.toUpperCase c) "A"))) = true).
    { revert c. apply forall_ascii. vm_compute. reflexivity. }
    apply Bool.eqb_prop in P. rewrite P, negb_false_iff, orb_true_iff.
    rewrite negb_true_iff, Ascii.eqb_eq. reflexivity. }
  split.
  - intros E. rewrite E in H. destruct H as [_ H].
    assert (Hex : existsb (fun c => negb (accepted c))
                    (chars (JS.stripTrailingEquals base32)) = true).
    { clear -H. induction (chars (JS.stripTrailingEquals base32)) as [|c l IH];
        [discriminate H|].
      cbn in *. destruct (accepted c); cbn in *; [apply IH, H | reflexivity]. }
    apply existsb_exists in Hex. destruct Hex as (c & Hin & Hc).
    exists c. split; [exact Hin|]. apply Hacc. apply negb_true_iff, Hc.
  - intros (c & Hin & Hc). apply Hacc in Hc.
    destruct (base32Decode base32) as [out|e].
    + rewrite forallb_forall in H. rewrite (H c Hin) in Hc. discriminate Hc.
    + destruct H as [-> _]. reflexivity.
Qed.

(** C9.  When some ['='] of the input comes before a character that is not
    ['='], [base32Decode] throws the invalid-encoding error: that ['='] is
    outside the trailing run that is removed, and it is no key of the
    lookup table. *)
Theorem equals_only_as_trailing_padding (base32 : string) (i j : nat) (c : ascii) :
  (i < j)%nat ->
  JS.charAt i base32 = Some "="%char ->
  JS.charAt j base32 = Some c ->
  c <> "="%char ->
  In "="%char (chars (JS.stripTrailingEquals base32)) /\
  base32Lookup (JS.toUpperCase "=") = None /\
  base32Decode base32 = Throw InvalidBase32.
Proof.
  intros Hij Hi Hj Hc.
  assert (Hin : In "="%char (chars (JS.stripTrailingEquals base32))).
  { rewrite (charAt_split i base32 _ Hi).
    assert (Hj' : JS.charAt (j - S i) (JS.drop (S i) base32) = Some c).
    { rewrite charAt_drop. replace (S i + (j - S i))%nat with j by lia. exact Hj. }
    set (rest := JS.drop (S i) base32) in *.
    destruct (strip_keeps_non_equals c (JS.drop (S (j - S i)) rest) Hc) as [r Hr].
    assert (Hrest : JS.stripTrailingEquals rest
                    = JS.take (j - S i) rest ++ String c r).
    { rewrite (charAt_split _ rest _ Hj') at 1. apply strip_append, Hr. }
    assert (Hkept : exists x r', JS.stripTrailingEquals (String "=" rest) = String x r').
    { cbn [JS.stripTrailingEquals]. rewrite Hrest.
      destruct (JS.take (j - S i) rest); cbn; eexists; eexists; reflexivity. }
    destruct Hkept as (x & r' & Hkept).
    rewrite (strip_append (JS.take i base32) _ x r' Hkept), <- Hkept.
    cbn [JS.stripTrailingEquals]. rewrite Hrest.
    rewrite chars_append. apply in_or_app. right.
    destruct (JS.take (j - S i) rest); cbn; left; reflexivity. }
  split; [exact Hin|]. split; [reflexivity|].
  apply base32Decode_throws_iff. exists "="%char. split; [exact Hin|].
  left. reflexivity.
Qed.

End Decode.

(** ** The results of [base32Decode] *)

Section DecodeResults.

Lemma drop_0 (s : string) : JS.drop 0 s = s.
Proof. destruct s; reflexivity. Qed.

Lemma complete_groups_n_length (n : nat) (s : string) :
  List.length (complete_groups_n n s) = n.
Proof. revert s. induction n as [|n IH]; intros s; cbn; [|rewrite IH]; reflexivity. Qed.

Lemma trailing_group_length (bits : string) :
  JS.length (trailing_group bits) = (JS.length bits mod 8)%nat.
Proof.
  unfold trailing_group. rewrite length_drop.
  pose proof (Nat.div_mod_eq (JS.length bits) 8). lia.
Qed.

(** The result of [base32Decode] when its first loop ends with [bits]. *)
Lemma base32Decode_of_bits (base32 bits : string) :
  decode_chars (JS.stripTrailingEquals base32) "" = Ok bits ->
  is_binary bits = true /\
  JS.length bits = (5 * JS.length (JS.stripTrailingEquals base32))%nat /\
  base32Decode base32 = Ok (complete_groups bits ++ partial_group bits)%list.
Proof.
  intros H.
  pose proof (decode_chars_cases (JS.stripTrailingEquals base32) "") as Hc.
  rewrite H in Hc.
  destruct (decode_chars_succeeds _ "" Hc eq_refl) as (bits' & E & B & L).
  rewrite H in E. injection E as <-.
  split; [exact B|]. split; [exact L|].
  unfold base32Decode. rewrite H. cbn [bind]. f_equal.
  rewrite (decode_groups_spec bits B) by lia.
  rewrite drop_0. reflexivity.
Qed.

(** C1.  ['A'] is a key of the lookup table, with value 0, and a character
    of the alphabet, yet [base32Decode] throws on it: on "A", on "AAAAAAAA",
    and on "NV4SA43UOJUW4ZY=", which [stringToBase32] returns for
    "my string" and which contains no character outside the alphabet. *)
Theorem decode_throws_on_value_zero :
  base32Lookup (JS.toUpperCase "A") = Some 0 /\
  in_alphabet "A" = true /\
  not_val (Some 0) = true /\
  base32Decode "A" = Throw InvalidBase32 /\
  base32Decode "AAAAAAAA" = Throw InvalidBase32 /\
  stringToBase32 "my string" = "NV4SA43UOJUW4ZY=" /\
  forallb in_alphabet (chars (JS.stripTrailingEquals "NV4SA43UOJUW4ZY=")) = true /\
  base32Decode "NV4SA43UOJUW4ZY=" = Throw InvalidBase32.
Proof. repeat split; vm_compute; reflexivity. Qed.

(** C2.  [base32Decode] does not discard a final group shorter than 8
    bits.  On "MZXW6===", which [stringToBase32] returns for "foo", the first
    loop leaves 25 bits; the complete groups are the three bytes of "foo",
    and [base32Decode] returns a fourth byte, made from the one bit left,
    which is filler of the encoder.  On "MZ" the two bits left, 01, are read
    as the byte 1. *)
Theorem partial_group_is_not_discarded :
  exists bits,
    decode_chars (JS.stripTrailingEquals "MZXW6===") "" = Ok bits /\
    JS.length bits = 25%nat /\
    complete_groups bits = [102; 111; 111] /\
    base32Decode "MZXW6===" = Ok [102; 111; 111; 0] /\
    base32Decode "MZXW6===" <> Ok (complete_groups bits) /\
    stringToBase32 "foo" = "MZXW6===" /\
    JS.TextEncoder_encode "foo" = [102; 111; 111] /\
    base32Decode "MZ" = Ok [102; 1].
Proof.
  exists "0110011001101111011011110"%string.
  repeat split; try (vm_compute; reflexivity).
  vm_compute. discriminate.
Qed.

(** C3.  The five bytes of the text "00000" are encoded as "GAYDAMBQ", and
    [base32Decode] throws on that string, at its second character. *)
Theorem round_trip_throws :
  JS.TextEncoder_encode "00000" = [48; 48; 48; 48; 48] /\
  stringToBase32 "00000" = "GAYDAMBQ" /\
  base32Decode (stringToBase32 "00000") = Throw InvalidBase32 /\
  base32Decode "G" = Ok [6] /\
  base32Decode "GA" = Throw InvalidBase32.
Proof. repeat split; vm_compute; reflexivity. Qed.

End DecodeResults.

(** ** Encoding, and decoding what was encoded *)

Section RoundTrip.

Lemma eight_bits_spec (b : Z) :
  is_byte b ->
  is_binary (eight_bits b) = true /\ JS.length (eight_bits b) = 8%nat /\
  bin_value (eight_bits b) = b.
Proof.
  intros Hb.
  assert (P : (is_binary (eight_bits b) && (JS.length (eight_bits b) =? 8)%nat
               && (bin_value (eight_bits b) =? b)) = true).
  { revert b Hb. apply (forall_below_spec 256). vm_compute. reflexivity. }
  apply andb_prop in P. destruct P as [P P3].
  apply andb_prop in P. destruct P as [P1 P2].
  apply Nat.eqb_eq in P2. apply Z.eqb_eq in P3. auto.
Qed.

Lemma fold_bits_acc (l : list Z) (acc : string) :
  fold_left (fun bits b => bits ++ JS.padStart 8 "0" (JS.toString2 b)) l acc =
  acc ++ bytes_to_bits l.
Proof.
  unfold bytes_to_bits. revert acc.
  induction l as [|x l IH]; intros acc; cbn [fold_left].
  - rewrite append_nil_r. reflexivity.
  - rewrite IH. rewrite (IH ("" ++ _)). cbn [append]. apply append_assoc.
Qed.

Lemma bytes_to_bits_cons (b : Z) (l : list Z) :
  bytes_to_bits (b :: l) = eight_bits b ++ bytes_to_bits l.
Proof. unfold bytes_to_bits at 1. cbn [fold_left append]. apply fold_bits_acc. Qed.

Lemma bytes_to_bits_spec (l : list Z) :
  Forall is_byte l ->
  is_binary (bytes_to_bits l) = true /\
  JS.length (bytes_to_bits l) = (8 * List.length l)%nat /\
  complete_groups_n (List.length l) (bytes_to_bits l) = l.
Proof.
  induction 1 as [|b l Hb Hl IH]; [repeat split|].
  destruct IH as (B & L & G).
  destruct (eight_bits_spec b Hb) as (E1 & E2 & E3).
  rewrite bytes_to_bits_cons.
  split; [rewrite is_binary_append, E1, B; reflexivity|].
  split; [rewrite length_append, E2, L; cbn [List.length]; lia|].
  cbn [List.length complete_groups_n]. rewrite <- E2 at 1 2.
  rewrite take_append, drop_append, E3, G. reflexivity.
Qed.

(** The second loop of [stringToBase32] leaves by its own test, after one
    turn per group of 5 bits, the last of which may be shorter. *)
Lemma encode_groups_spec (bits : string) (n : nat) :
  forall (fuel i : nat) (output : string),
    (JS.length (JS.drop i bits) <= 5 * n < JS.length (JS.drop i bits) + 5)%nat ->
    (n <= fuel)%nat ->
    encode_groups fuel bits i output = output ++ encode_groups_n n (JS.drop i bits).
Proof.
  induction n as [|n IH]; intros fuel i output Hlen Hfuel.
  - cbn [encode_groups_n]. rewrite append_nil_r.
    rewrite length_drop in Hlen.
    destruct fuel as [|fuel]; [reflexivity|]. cbn [encode_groups].
    destruct (i <? JS.length bits)%nat eqn:E; [|reflexivity].
    apply Nat.ltb_lt in E. lia.
  - destruct fuel as [|fuel]; [lia|]. cbn [encode_groups encode_groups_n].
    pose proof Hlen as Hlen'. rewrite length_drop in Hlen'.
    destruct (i <? JS.length bits)%nat eqn:E; [|apply Nat.ltb_ge in E; lia].
    rewrite (IH fuel (i + 5)%nat).
    + rewrite slice_take_drop, drop_drop, append_assoc. reflexivity.
    + rewrite length_drop. lia.
    + lia.
Qed.

(** [length bits] turns are enough for every input. *)
Lemma encode_groups_total (bits : string) :
  encode_groups (JS.length bits) bits 0 "" =
    encode_groups_n ((JS.length bits + 4) / 5) bits.
Proof.
  pose proof (Nat.div_mod_eq (JS.length bits + 4) 5) as D.
  pose proof (Nat.mod_upper_bound (JS.length bits + 4) 5 ltac:(lia)) as U.
  rewrite (encode_groups_spec bits ((JS.length bits + 4) / 5)).
  - rewrite drop_0. reflexivity.
  - rewrite drop_0. lia.
  - lia.
Qed.

(** The third loop appends at most seven ['='] and leaves by its own test. *)
Lemma pad_equals_spec (k : nat) :
  forall (fuel : nat) (s : string),
    ((JS.length s + k) mod 8 = 0)%nat -> (k <= fuel)%nat ->
    exists j, (j <= k)%nat /\ pad_equals fuel s = s ++ JS.repeat "=" j /\
              ((JS.length s + j) mod 8 = 0)%nat.
Proof.
  induction k as [|k IH]; intros fuel s Hk Hfuel.
  - exists 0%nat. rewrite Nat.add_0_r in Hk. cbn [JS.repeat]. rewrite append_nil_r, Nat.add_0_r.
    split; [lia|]. split; [|exact Hk].
    destruct fuel; [reflexivity|]. cbn [pad_equals]. rewrite Hk. reflexivity.
  - destruct fuel as [|fuel]; [lia|]. cbn [pad_equals].
    destruct (JS.length s mod 8 =? 0)%nat eqn:E.
    + apply Nat.eqb_eq in E. exists 0%nat. cbn [JS.repeat].
      rewrite append_nil_r, Nat.add_0_r. repeat split; [lia | exact E].
    + destruct (IH fuel (s ++ "=")) as (j & Hj & Ep & Hm).
      * rewrite length_append. cbn [JS.length String.length].
        replace (JS.length s + 1 + k)%nat with (JS.length s + S k)%nat by lia. exact Hk.
      * lia.
      * exists (S j). split; [lia|]. split.
        -- rewrite Ep, append_assoc. reflexivity.
        -- rewrite length_append in Hm. cbn [JS.length String.length] in Hm.
           replace (JS.length s + S j)%nat with (JS.length s + 1 + j)%nat by lia. exact Hm.
Qed.

Lemma pad_equals_8 (s : string) :
  exists j, (j < 8)%nat /\ pad_equals 8 s = s ++ JS.repeat "=" j /\
            ((JS.length s + j) mod 8 = 0)%nat.
Proof.
  pose proof (Nat.div_mod_eq (JS.length s) 8) as D.
  pose proof (Nat.mod_upper_bound (JS.length s) 8 ltac:(lia)) as U.
  destruct (Nat.eq_dec (JS.length s mod 8) 0) as [Hz|Hnz].
  - destruct (pad_equals_spec 0 8 s) as (j & Hj & E & M);
      [rewrite Nat.add_0_r; exact Hz | lia |].
    exists j. repeat split; [lia | exact E | exact M].
  - destruct (pad_equals_spec (8 - JS.length s mod 8) 8 s) as (j & Hj & E & M).
    + replace (JS.length s + (8 - JS.length s mod 8))%nat
        with ((JS.length s / 8 + 1) * 8)%nat by lia.
      apply Nat.Div0.mod_mul.
    + lia.
    + exists j. repeat split; [lia | exact E | exact M].
Qed.

Lemma alphabet_at_spec (v : Z) :
  0 <= v < 32 ->
  exists c, alphabet_at (Some v) = String c "" /\
            base32Lookup (JS.toUpperCase c) = Some v /\
            (c = "A"%char <-> v = 0).
Proof.
  intros Hv.
  assert (P : (match alphabet_at (Some v) with
               | String c "" =>
                   match base32Lookup (JS.toUpperCase c) with
                   | Some v' => (v' =? v) && Bool.eqb (Ascii.eqb c "A") (v =? 0)
                   | None => false
                   end
               | _ => false
               end) = true).
  { revert v Hv. apply (forall_below_spec 32). vm_compute. reflexivity. }
  destruct (alphabet_at (Some v)) as [|c [|? ?]]; try discriminate P.
  exists c. split; [reflexivity|].
  destruct (base32Lookup (JS.toUpperCase c)) as [v'|]; [|discriminate P].
  apply andb_prop in P. destruct P as [P1 P2].
  apply Z.eqb_eq in P1. apply Bool.eqb_prop in P2. subst v'.
  split; [reflexivity|].
  rewrite <- Ascii.eqb_eq, <- Z.eqb_eq, P2. reflexivity.
Qed.

(** Five binary digits are the digits that [base32Decode] appends for the
    number they denote. *)
Lemma five_bits_inv (t : string) :
  is_binary t = true -> JS.length t = 5%nat ->
  five_bits (bin_value t) = t /\ 0 <= bin_value t < 32 /\ JS.padEnd 5 "0" t = t.
Proof.
  intros Hb Hl.
  do 5 (destruct t as [|? t]; [discriminate Hl|]).
  destruct t; [|discriminate Hl].
  cbn [is_binary] in Hb.
  repeat match goal with
         | H : (_ && _) = true |- _ =>
             apply andb_prop in H;
             let Hc := fresh "Hc" in
             destruct H as [Hc H]; apply binary_char in Hc; destruct Hc; subst
         end;
    repeat split; vm_compute; solve [reflexivity | discriminate].
Qed.

Lemma strip_accepted (s : string) :
  forallb accepted (chars s) = true -> JS.stripTrailingEquals s = s.
Proof.
  induction s as [|c s IH]; intros H; [reflexivity|].
  cbn [chars forallb] in H. apply andb_prop in H. destruct H as [Hc Hs].
  cbn [JS.stripTrailingEquals]. rewrite (IH Hs).
  destruct s as [|x s]; [|reflexivity].
  destruct (Ascii.eqb_spec c "=") as [->|_]; [discriminate Hc | reflexivity].
Qed.

(** The first loop of [base32Decode] on what the second loop of
    [stringToBase32] wrote, when no 5-bit group was zero. *)
Lemma decode_encoded (n : nat) :
  forall (s bits0 : string),
    is_binary s = true -> JS.length s = (5 * n)%nat ->
    ~ In "A"%char (chars (encode_groups_n n s)) ->
    JS.length (encode_groups_n n s) = n /\
    forallb accepted (chars (encode_groups_n n s)) = true /\
    decode_chars (encode_groups_n n s) bits0 = Ok (bits0 ++ s).
Proof.
  induction n as [|n IH]; intros s bits0 Hb Hl HA.
  - rewrite (length_zero s) by lia. cbn. rewrite append_nil_r. auto.
  - cbn [encode_groups_n] in *.
    assert (Ht : JS.length (JS.take 5 s) = 5%nat) by (rewrite length_take; lia).
    destruct (five_bits_inv _ (is_binary_take 5 s Hb) Ht) as (F1 & F2 & F3).
    rewrite F3 in *.
    assert (Hne : JS.take 5 s <> "") by (intros E; rewrite E in Ht; discriminate Ht).
    rewrite (parseInt2_binary _ (is_binary_take 5 s Hb) Hne) in *.
    destruct (alphabet_at_spec _ F2) as (c & Ec & Lc & Ac).
    rewrite Ec in *. cbn [append chars] in *.
    assert (Hv : bin_value (JS.take 5 s) <> 0).
    { intros E. apply HA. left. apply Ac in E. congruence. }
    destruct (IH (JS.drop 5 s) (bits0 ++ JS.take 5 s)) as (L & A & D).
    + apply is_binary_drop, Hb.
    + rewrite length_drop. lia.
    + intros Hin. apply HA. right. exact Hin.
    + split; [cbn [JS.length String.length] in *; unfold JS.length in *; lia|].
      split.
      * cbn [forallb]. rewrite A, andb_true_r. apply accepted_spec.
        exists (bin_value (JS.take 5 s)). auto.
      * cbn [decode_chars]. rewrite Lc. cbn [not_val].
        apply Z.eqb_neq in Hv. rewrite Hv.
        fold (five_bits (bin_value (JS.take 5 s))). rewrite F1, D.
        rewrite append_assoc, take_drop. reflexivity.
Qed.

Lemma encode_groups_n_length (n : nat) :
  forall s, is_binary s = true -> JS.length s = (5 * n)%nat ->
            JS.length (encode_groups_n n s) = n.
Proof.
  induction n as [|n IH]; intros s Hb Hl; [reflexivity|].
  cbn [encode_groups_n].
  assert (Ht : JS.length (JS.take 5 s) = 5%nat) by (rewrite length_take; lia).
  destruct (five_bits_inv _ (is_binary_take 5 s Hb) Ht) as (_ & F2 & F3).
  assert (Hne : JS.take 5 s <> "") by (intros E; rewrite E in Ht; discriminate Ht).
  rewrite F3, (parseInt2_binary _ (is_binary_take 5 s Hb) Hne).
  destruct (alphabet_at_spec _ F2) as (c & Ec & _).
  rewrite Ec, length_append, IH.
  - reflexivity.
  - apply is_binary_drop, Hb.
  - rewrite length_drop. lia.
Qed.

(** On bytes whose number is a multiple of 5 the encoder writes eight
    characters per five bytes and no padding. *)
Lemma encode_bytes_multiple_of_5 (byteArray : list Z) :
  Forall is_byte byteArray ->
  (List.length byteArray mod 5 = 0)%nat ->
  encode_bytes byteArray =
    encode_groups_n (8 * (List.length byteArray / 5)) (bytes_to_bits byteArray).
Proof.
  intros Hbytes Hlen.
  destruct (bytes_to_bits_spec byteArray Hbytes) as (B & L & _).
  pose proof (Nat.div_mod_eq (List.length byteArray) 5) as Hdiv.
  set (n := (8 * (List.length byteArray / 5))%nat).
  assert (Hn : JS.length (bytes_to_bits byteArray) = (5 * n)%nat) by (unfold n; lia).
  unfold encode_bytes. cbv zeta.
  rewrite (encode_groups_spec _ n) by (rewrite ?drop_0; lia).
  rewrite drop_0. cbn [append].
  destruct (pad_equals_spec 0 8 (encode_groups_n n (bytes_to_bits byteArray)))
    as (j & Hj & E & _).
  - rewrite Nat.add_0_r, (encode_groups_n_length n _ B Hn).
    unfold n. rewrite Nat.mul_comm. apply Nat.Div0.mod_mul.
  - lia.
  - rewrite E. replace j with 0%nat by lia. apply append_nil_r.
Qed.

(** Decoding the encoding of bytes whose number is a multiple of 5 gives the
    bytes back when no 5-bit group of them is zero, that is, when the
    encoding has no ['A']. *)
Lemma round_trip_without_zero_group (byteArray : list Z) :
  Forall is_byte byteArray ->
  (List.length byteArray mod 5 = 0)%nat ->
  ~ In "A"%char (chars (encode_bytes byteArray)) ->
  base32Decode (encode_bytes byteArray) = Ok byteArray.
Proof.
  intros Hbytes Hlen HA.
  rewrite (encode_bytes_multiple_of_5 _ Hbytes Hlen) in *.
  destruct (bytes_to_bits_spec byteArray Hbytes) as (B & L & G).
  pose proof (Nat.div_mod_eq (List.length byteArray) 5) as Hdiv.
  set (bits := bytes_to_bits byteArray) in *.
  set (n := (8 * (List.length byteArray / 5))%nat) in *.
  assert (Hn : JS.length bits = (5 * n)%nat) by (unfold n; lia).
  destruct (decode_encoded n bits "" B Hn HA) as (_ & A & D).
  cbn [append] in D.
  assert (Hs : JS.stripTrailingEquals (encode_groups_n n bits) = encode_groups_n n bits)
    by (apply strip_accepted, A).
  rewrite <- Hs in D.
  destruct (base32Decode_of_bits _ _ D) as (_ & _ & E).
  rewrite E. f_equal.
  assert (Hc : complete_groups bits = byteArray).
  { unfold complete_groups. rewrite L, Nat.mul_comm, Nat.div_mul by lia. exact G. }
  assert (Hp : partial_group bits = []).
  { unfold partial_group. rewrite (length_zero (trailing_group bits)); [reflexivity|].
    rewrite trailing_group_length, L, Nat.mul_comm. apply Nat.Div0.mod_mul. }
  rewrite Hc, Hp. apply app_nil_r.
Qed.

Lemma utf8_bytes (text : string) : Forall is_byte (JS.TextEncoder_encode text).
Proof.
  induction text as [|c text IH]; [constructor|].
  cbn [JS.TextEncoder_encode]. apply Forall_app. split; [|exact IH].
  assert (P : forallb (fun b => (0 <=? b) && (b <? 256)) (JS.utf8 c) = true).
  { revert c. apply forall_ascii. vm_compute. reflexivity. }
  apply Forall_forall. intros b Hin. rewrite forallb_forall in P.
  specialize (P b Hin). apply andb_prop in P. destruct P as [P1 P2].
  apply Z.leb_le in P1. apply Z.ltb_lt in P2. split; assumption.
Qed.

(** The same for [stringToBase32], whose bytes are the UTF-8 encoding of
    its argument. *)
Lemma round_trip_text (text : string) :
  (List.length (JS.TextEncoder_encode text) mod 5 = 0)%nat ->
  ~ In "A"%char (chars (stringToBase32 text)) ->
  base32Decode (stringToBase32 text) = Ok (JS.TextEncoder_encode text).
Proof.
  intros Hlen HA. apply round_trip_without_zero_group; [apply utf8_bytes | exact Hlen | exact HA].
Qed.

End RoundTrip.

(** ** The properties on the published test vectors *)

Section Vectors.

(** RFC 6238, appendix B: at 59 s the SHA-1 code is 94287082, of which
    [generateTOTP] keeps the last six digits. *)
Example rfc6238_59s :
  generateTOTP RefCrypto.subtle_hmac rfc6238_secret 59000 = Ok "287082".
Proof. vm_compute. reflexivity. Qed.

Example rfc6238_1111111109s :
  generateTOTP RefCrypto.subtle_hmac rfc6238_secret 1111111109000 = Ok "081804".
Proof. vm_compute. reflexivity. Qed.

(** RFC 4226, section 5.4: the digest whose last byte is 0x5a has offset 10
    and the value 0x50ef7f19, hence the code 872921. *)
Example rfc4226_truncation :
  truncate rfc4226_digest = Some 0x50ef7f19 /\
  format_otp (truncate rfc4226_digest) = "872921".
Proof. split; vm_compute; reflexivity. Qed.

(** The key of RFC 6238 has 20 bytes and its encoding has no ['A']: encoding
    and decoding give the key back. *)
Example round_trip_rfc6238_key :
  stringToBase32 "12345678901234567890" = rfc6238_secret /\
  base32Decode (stringToBase32 "12345678901234567890") =
    Ok (JS.TextEncoder_encode "12345678901234567890").
Proof.
  split; [vm_compute; reflexivity|].
  apply round_trip_text; [reflexivity|].
  vm_compute. intuition discriminate.
Qed.

Lemma dynamic_truncation_witness :
  List.length rfc4226_digest = 20%nat /\
  Forall is_byte rfc4226_digest /\
  offset_of rfc4226_digest = Some (nth 19 rfc4226_digest 0 mod 16).
Proof.
  assert (H1 : List.length rfc4226_digest = 20%nat) by reflexivity.
  assert (H2 : Forall is_byte rfc4226_digest).
  { unfold rfc4226_digest, is_byte. repeat constructor; lia. }
  split; [exact H1|]. split; [exact H2|].
  exact (proj1 (dynamic_truncation rfc4226_digest H1 H2)).
Defined.

Lemma counter_derivation_and_serialization_witness :
  0 <= 59000 < 2 ^ 53 /\ counter_of 59000 = 59000 / 1000 / 30.
Proof.
  assert (H : 0 <= 59000 < 2 ^ 53) by (split; [discriminate | reflexivity]).
  split; [exact H|].
  exact (proj1 (counter_derivation_and_serialization
                  RefCrypto.subtle_hmac rfc6238_secret [] 59000 H)).
Defined.

Lemma verification_correctness_witness :
  generateTOTP RefCrypto.subtle_hmac rfc6238_secret 59000 = Ok "287082" /\
  verifyTOTP RefCrypto.subtle_hmac rfc6238_secret "287082" 59000 = Ok true.
Proof.
  assert (H : generateTOTP RefCrypto.subtle_hmac rfc6238_secret 59000 = Ok "287082")
    by (vm_compute; reflexivity).
  split; [exact H|].
  exact (proj2 (proj2 (proj2
           (verification_correctness RefCrypto.subtle_hmac rfc6238_secret
              "000000" "287082" 59000 H)))).
Defined.

Lemma window_boundary_witness :
  0 <= 30000 < 2 ^ 53 /\ 0 <= 59999 < 2 ^ 53 /\ 30000 / 30000 = 59999 / 30000 /\
  generateTOTP RefCrypto.subtle_hmac rfc6238_secret 30000 =
    generateTOTP RefCrypto.subtle_hmac rfc6238_secret 59999.
Proof.
  assert (H1 : 0 <= 30000 < 2 ^ 53) by (split; [discriminate | reflexivity]).
  assert (H2 : 0 <= 59999 < 2 ^ 53) by (split; [discriminate | reflexivity]).
  assert (H3 : 30000 / 30000 = 59999 / 30000) by reflexivity.
  split; [exact H1|]. split; [exact H2|]. split; [exact H3|].
  exact (proj1 (window_boundary RefCrypto.subtle_hmac rfc6238_secret) 30000 59999 H1 H2 H3).
Defined.

Lemma fixed_width_witness :
  digest_contract RefCrypto.subtle_hmac /\
  generateTOTP RefCrypto.subtle_hmac rfc6238_secret 59000 = Ok "287082" /\
  JS.length "287082" = 6%nat.
Proof.
  assert (H : generateTOTP RefCrypto.subtle_hmac rfc6238_secret 59000 = Ok "287082")
    by (vm_compute; reflexivity).
  split; [exact subtle_hmac_contract|]. split; [exact H|].
  exact (proj1 (fixed_width RefCrypto.subtle_hmac subtle_hmac_contract
                  rfc6238_secret "287082" 59000 H)).
Defined.

Lemma verify_rejects_other_lengths_witness :
  digest_contract RefCrypto.subtle_hmac /\
  generateTOTP RefCrypto.subtle_hmac rfc6238_secret 59000 = Ok "287082" /\
  JS.length "87082" <> 6%nat /\
  verifyTOTP RefCrypto.subtle_hmac rfc6238_secret "87082" 59000 = Ok false.
Proof.
  assert (H : generateTOTP RefCrypto.subtle_hmac rfc6238_secret 59000 = Ok "287082")
    by (vm_compute; reflexivity).
  assert (Hlen : JS.length "87082" <> 6%nat) by (cbn; lia).
  split; [exact subtle_hmac_contract|]. split; [exact H|]. split; [exact Hlen|].
  exact (verify_rejects_other_lengths RefCrypto.subtle_hmac subtle_hmac_contract
           rfc6238_secret "87082" "287082" 59000 H Hlen).
Defined.

Lemma equals_only_as_trailing_padding_witness :
  (2 < 3)%nat /\
  JS.charAt 2 "MZ=XW6" = Some "="%char /\
  JS.charAt 3 "MZ=XW6" = Some "X"%char /\
  base32Decode "MZ=XW6" = Throw InvalidBase32.
Proof.
  assert (H1 : (2 < 3)%nat) by lia.
  assert (H2 : JS.charAt 2 "MZ=XW6" = Some "="%char) by reflexivity.
  assert (H3 : JS.charAt 3 "MZ=XW6" = Some "X"%char) by reflexivity.
  assert (H4 : "X"%char <> "="%char) by discriminate.
  split; [exact H1|]. split; [exact H2|]. split; [exact H3|].
  exact (proj2 (proj2 (equals_only_as_trailing_padding "MZ=XW6" 2 3 "X" H1 H2 H3 H4))).
Defined.

End Vectors.

(** ** More on [base32Decode]: tables, errors, case, padding, sizes *)

Section DecodeMore.

(** X1.  The lookup table of [base32Decode] and the alphabet of
    [stringToBase32] are inverse to each other: the character at index [v] of
    the alphabet has the value [v], and a key of value [v] is the character
    at index [v]; the values are exactly 0 to 31. *)
Theorem lookup_inverts_alphabet :
  (forall v, 0 <= v < 32 ->
     exists c, JS.charAt (Z.to_nat v) alphabet = Some c /\ base32Lookup c = Some v) /\
  (forall c v, base32Lookup c = Some v ->
     0 <= v < 32 /\ JS.charAt (Z.to_nat v) alphabet = Some c).
Proof.
  split.
  - intros v Hv.
    assert (P : (match JS.charAt (Z.to_nat v) alphabet with
                 | Some c => match base32Lookup c with
                             | Some v' => v' =? v
                             | None => false
                             end
                 | None => false
                 end) = true).
    { revert v Hv. apply (forall_below_spec 32). vm_compute. reflexivity. }
    destruct (JS.charAt (Z.to_nat v) alphabet) as [c|]; [|discriminate P].
    exists c. split; [reflexivity|].
    destruct (base32Lookup c) as [v'|]; [|discriminate P].
    apply Z.eqb_eq in P. rewrite P. reflexivity.
  - intros c v H. split; [apply (lookup_range c v H)|].
    pose proof (lookup_alphabet c) as L. rewrite H in L. apply L.
Qed.

(** X2.  [base32Decode] throws exactly when a character that is left after
    the trailing ['='] are removed is, in upper case, outside the alphabet or
    equal to ['A']; the error is always the invalid-Base32 one, and on every
    other input a byte array is returned. *)
Theorem decode_error_characterisation (base32 : string) :
  ((exists c, In c (chars (JS.stripTrailingEquals base32)) /\ rejected c) <->
   base32Decode base32 = Throw InvalidBase32) /\
  (~ (exists c, In c (chars (JS.stripTrailingEquals base32)) /\ rejected c) <->
   exists output, base32Decode base32 = Ok output) /\
  base32Decode base32 <> Throw CryptoFailure.
Proof.
  unfold rejected.
  pose proof (base32Decode_throws_iff base32) as T.
  pose proof (base32Decode_cases base32) as C.
  split; [symmetry; exact T|].
  destruct (base32Decode base32) as [out|e].
  - split; [|discriminate].
    split; [intros _; exists out; reflexivity|].
    intros _ Hex. apply T in Hex. discriminate Hex.
  - destruct C as [-> C]. split; [|discriminate].
    split.
    + intros Hn. exfalso. apply Hn. apply T. reflexivity.
    + intros [out Hout]. discriminate Hout.
Qed.

Lemma toUpperCase_ascii_upper (c : ascii) :
  JS.toUpperCase (ascii_upper c) = JS.toUpperCase c.
Proof.
  assert (P : Ascii.eqb (JS.toUpperCase (ascii_upper c)) (JS.toUpperCase c) = true).
  { revert c. apply forall_ascii. vm_compute. reflexivity. }
  apply Ascii.eqb_eq, P.
Qed.

Lemma ascii_upper_equals (c : ascii) :
  Ascii.eqb (ascii_upper c) "=" = Ascii.eqb c "=".
Proof.
  assert (P : Bool.eqb (Ascii.eqb (ascii_upper c) "=") (Ascii.eqb c "=") = true).
  { revert c. apply forall_ascii. vm_compute. reflexivity. }
  apply Bool.eqb_prop, P.
Qed.

Lemma strip_map_ascii_upper (s : string) :
  JS.stripTrailingEquals (map_chars ascii_upper s) =
  map_chars ascii_upper (JS.stripTrailingEquals s).
Proof.
  induction s as [|c s IH]; [reflexivity|].
  cbn [map_chars JS.stripTrailingEquals]. rewrite IH.
  destruct (JS.stripTrailingEquals s) as [|x r]; cbn [map_chars].
  - rewrite ascii_upper_equals. destruct (Ascii.eqb c "="); reflexivity.
  - reflexivity.
Qed.

Lemma decode_chars_map_ascii_upper (s : string) :
  forall bits, decode_chars (map_chars ascii_upper s) bits = decode_chars s bits.
Proof.
  induction s as [|c s IH]; intros bits; [reflexivity|].
  cbn [map_chars decode_chars]. rewrite toUpperCase_ascii_upper.
  destruct (not_val (base32Lookup (JS.toUpperCase c))); [reflexivity|].
  destruct (base32Lookup (JS.toUpperCase c)); [apply IH | reflexivity].
Qed.

Lemma base32Decode_map_ascii_upper (s : string) :
  base32Decode (map_chars ascii_upper s) = base32Decode s.
Proof.
  unfold base32Decode. rewrite strip_map_ascii_upper, decode_chars_map_ascii_upper.
  reflexivity.
Qed.

(** X3.  [base32Decode] does not see the case of ASCII letters: two inputs
    that are equal once the letters a to z are replaced by A to Z, every
    other character left as it is, have the same result, bytes or error. *)
Theorem decode_ignores_ascii_case (s1 s2 : string) :
  map_chars ascii_upper s1 = map_chars ascii_upper s2 ->
  base32Decode s1 = base32Decode s2.
Proof.
  intros H.
  rewrite <- (base32Decode_map_ascii_upper s1), <- (base32Decode_map_ascii_upper s2), H.
  reflexivity.
Qed.

Lemma strip_padding (s : string) (k : nat) :
  JS.stripTrailingEquals (s ++ JS.repeat "=" k) = JS.stripTrailingEquals s.
Proof.
  induction s as [|c s IH].
  - cbn [append]. induction k as [|k IHk]; [reflexivity|].
    cbn [JS.repeat JS.stripTrailingEquals]. rewrite IHk. reflexivity.
  - cbn [append JS.stripTrailingEquals]. rewrite IH. reflexivity.
Qed.

(** X4.  Any number of ['='] at the end of the input is ignored, whether or
    not it pads to a multiple of 8 characters: the result is that of the
    input without them.  In particular a string of ['='] alone decodes to
    the empty byte array, like the empty string. *)
Theorem decode_ignores_trailing_padding (base32 : string) (k : nat) :
  base32Decode (base32 ++ JS.repeat "=" k) = base32Decode base32 /\
  base32Decode (JS.repeat "=" k) = Ok [].
Proof.
  split.
  - unfold base32Decode. rewrite strip_padding. reflexivity.
  - pose proof (strip_padding "" k) as H. cbn [append] in H.
    unfold base32Decode. rewrite H. reflexivity.
Qed.

Lemma complete_groups_n_bytes (n : nat) (s : string) :
  Forall is_byte (complete_groups_n n s).
Proof.
  revert s. induction n as [|n IH]; intros s; cbn [complete_groups_n]; constructor.
  - apply bin_value_byte. rewrite length_take. lia.
  - apply IH.
Qed.

Lemma partial_group_bytes (bits : string) :
  Forall is_byte (partial_group bits) /\
  List.length (partial_group bits) = (if (JS.length bits mod 8 =? 0)%nat then 0 else 1)%nat.
Proof.
  pose proof (trailing_group_length bits) as T.
  pose proof (Nat.mod_upper_bound (JS.length bits) 8 ltac:(lia)) as U.
  unfold partial_group.
  destruct (trailing_group bits) as [|c r] eqn:E.
  - change (JS.length "") with 0%nat in T. rewrite <- T. split; [constructor | reflexivity].
  - split.
    + constructor; [|constructor]. apply bin_value_byte. rewrite T. lia.
    + destruct (JS.length bits mod 8 =? 0)%nat eqn:Em; [|reflexivity].
      apply Nat.eqb_eq in Em. rewrite Em in T. discriminate T.
Qed.

(** X5.  When [base32Decode] returns, every element of the array is a byte
    and the array has one element per started group of 8 bits: with [m]
    characters left after the trailing ['='] are removed, [ceil(5 m / 8)]
    bytes. *)
Theorem decode_output_size (base32 : string) (output : list Z) :
  base32Decode base32 = Ok output ->
  Forall is_byte output /\
  List.length output = ((5 * JS.length (JS.stripTrailingEquals base32) + 7) / 8)%nat.
Proof.
  intros H. unfold base32Decode in H.
  destruct (decode_chars (JS.stripTrailingEquals base32) "") as [bits|e] eqn:E;
    [|discriminate H].
  destruct (base32Decode_of_bits _ _ E) as (_ & L & D).
  unfold base32Decode in D. rewrite E in D. rewrite D in H. injection H as <-.
  destruct (partial_group_bytes bits) as [P1 P2].
  split.
  - apply Forall_app. split; [apply complete_groups_n_bytes | exact P1].
  - rewrite length_app, P2. unfold complete_groups. rewrite complete_groups_n_length.
    rewrite <- L.
    pose proof (Nat.div_mod_eq (JS.length bits) 8) as D8.
    pose proof (Nat.mod_upper_bound (JS.length bits) 8 ltac:(lia)) as U8.
    destruct (JS.length bits mod 8 =? 0)%nat eqn:Em.
    + apply Nat.eqb_eq in Em.
      apply (Nat.div_unique _ 8 _ 7); lia.
    + apply Nat.eqb_neq in Em.
      apply (Nat.div_unique _ 8 _ (JS.length bits mod 8 - 1)); lia.
Qed.

End DecodeMore.

(** ** More on [stringToBase32]: the shape of its output *)

Section EncodeMore.

Lemma is_binary_zeros (k : nat) : is_binary (JS.repeat "0" k) = true.
Proof. induction k as [|k IH]; [reflexivity | exact IH]. Qed.

(** The group that a turn of the second loop reads, filled to 5 bits. *)
Lemma padded_group (s : string) :
  is_binary s = true -> s <> "" ->
  let g := JS.padEnd 5 "0" (JS.take 5 s) in
  is_binary g = true /\ JS.length g = 5%nat /\
  g = JS.take 5 s ++ JS.repeat "0" (5 - JS.length s).
Proof.
  intros Hb Hne g.
  assert (Hl : (0 < JS.length s)%nat) by (destruct s; [congruence | cbn; lia]).
  assert (E : g = JS.take 5 s ++ JS.repeat "0" (5 - JS.length s)).
  { unfold g, JS.padEnd. rewrite length_take. f_equal. f_equal. lia. }
  rewrite E. split; [|split; [|reflexivity]].
  - rewrite is_binary_append, is_binary_take, is_binary_zeros by exact Hb. reflexivity.
  - rewrite length_append, length_take, length_repeat. lia.
Qed.

Lemma alphabet_at_in (v : Z) :
  0 <= v < 32 ->
  exists c, alphabet_at (Some v) = String c "" /\ in_alphabet c = true /\
            JS.toUpperCase c = c /\ base32Lookup c = Some v.
Proof.
  intros Hv.
  assert (P : (match alphabet_at (Some v) with
               | String c "" =>
                   in_alphabet c && Ascii.eqb (JS.toUpperCase c) c
                   && match base32Lookup c with
                      | Some v' => v' =? v
                      | None => false
                      end
               | _ => false
               end) = true).
  { revert v Hv. apply (forall_below_spec 32). vm_compute. reflexivity. }
  destruct (alphabet_at (Some v)) as [|c [|? ?]]; try discriminate P.
  exists c. split; [reflexivity|].
  apply andb_prop in P. destruct P as [P P3].
  apply andb_prop in P. destruct P as [P1 P2].
  apply Ascii.eqb_eq in P2.
  destruct (base32Lookup c) as [v'|]; [|discriminate P3].
  apply Z.eqb_eq in P3. subst v'. auto.
Qed.

(** What the second loop of [stringToBase32] writes: one character of the
    alphabet per group, whose values spell the bits followed by the zeros
    that fill the last group. *)
Lemma encode_groups_n_shape (n : nat) :
  forall s,
    is_binary s = true ->
    (JS.length s <= 5 * n < JS.length s + 5)%nat ->
    JS.length (encode_groups_n n s) = n /\
    forallb in_alphabet (chars (encode_groups_n n s)) = true /\
    bits_of_chars (encode_groups_n n s) = s ++ JS.repeat "0" (5 * n - JS.length s).
Proof.
  induction n as [|n IH]; intros s Hb Hl.
  - rewrite (length_zero s) by lia. repeat split.
  - assert (Hne : s <> "").
    { intros ->. change (JS.length "") with 0%nat in Hl. lia. }
    destruct (padded_group s Hb Hne) as (G1 & G2 & G3).
    cbn [encode_groups_n].
    set (g := JS.padEnd 5 "0" (JS.take 5 s)) in *.
    assert (Hg : g <> "") by (intros E; rewrite E in G2; discriminate G2).
    rewrite (parseInt2_binary g G1 Hg).
    destruct (five_bits_inv g G1 G2) as (F1 & F2 & _).
    destruct (alphabet_at_in _ F2) as (c & Ec & Ic & Uc & Lc).
    rewrite Ec. cbn [append chars forallb bits_of_chars JS.length String.length].
    rewrite Uc, Lc, F1, Ic.
    destruct (IH (JS.drop 5 s)) as (L & A & B).
    + apply is_binary_drop, Hb.
    + rewrite length_drop. lia.
    + unfold JS.length in *. rewrite L, A, B. split; [reflexivity|]. split; [reflexivity|].
      rewrite G3, append_assoc. rewrite length_drop.
      destruct (le_lt_dec 5 (String.length s)) as [Hge|Hlt].
      * replace (5 - String.length s)%nat with 0%nat by lia. cbn [JS.repeat append].
        rewrite <- append_assoc. fold (JS.length s). rewrite take_drop.
        f_equal. f_equal. unfold JS.length. lia.
      * assert (n = 0%nat) by lia. subst n.
        rewrite (take_all 5 s) by (unfold JS.length; lia).
        rewrite (drop_all 5 s) by (unfold JS.length; lia).
        cbn [append JS.repeat Nat.mul Nat.sub Nat.add]. rewrite append_nil_r.
        reflexivity.
Qed.

(** The whole encoder on bytes: a body of [ceil(8 n / 5)] characters of the
    alphabet, then the ['='] that fill to a multiple of 8. *)
Lemma encode_bytes_shape (byteArray : list Z) :
  Forall is_byte byteArray ->
  let n := List.length byteArray in
  let body := encode_groups_n ((8 * n + 4) / 5) (bytes_to_bits byteArray) in
  exists j,
    encode_bytes byteArray = body ++ JS.repeat "=" j /\
    (j < 8)%nat /\ ((JS.length body + j) mod 8 = 0)%nat /\
    JS.length body = ((8 * n + 4) / 5)%nat /\
    forallb in_alphabet (chars body) = true /\
    bits_of_chars body =
      bytes_to_bits byteArray ++ JS.repeat "0" (5 * ((8 * n + 4) / 5) - 8 * n).
Proof.
  intros Hbytes n body.
  destruct (bytes_to_bits_spec byteArray Hbytes) as (B & L & _).
  fold n in L.
  pose proof (Nat.div_mod_eq (8 * n + 4) 5) as D.
  pose proof (Nat.mod_upper_bound (8 * n + 4) 5 ltac:(lia)) as U.
  destruct (encode_groups_n_shape ((8 * n + 4) / 5) (bytes_to_bits byteArray) B)
    as (Lb & Ab & Bb); [lia|].
  fold body in Lb, Ab, Bb.
  destruct (pad_equals_8 body) as (j & Hj & Ej & Mj).
  exists j. split.
  - unfold encode_bytes. cbv zeta. rewrite encode_groups_total, L. exact Ej.
  - rewrite L in Bb. auto.
Qed.

Lemma strip_alphabet (s : string) :
  forallb in_alphabet (chars s) = true -> JS.stripTrailingEquals s = s.
Proof.
  induction s as [|c s IH]; intros H; [reflexivity|].
  cbn [chars forallb] in H. apply andb_prop in H. destruct H as [Hc Hs].
  cbn [JS.stripTrailingEquals]. rewrite (IH Hs).
  destruct s as [|x s]; [|reflexivity].
  destruct (Ascii.eqb_spec c "=") as [->|_]; [discriminate Hc | reflexivity].
Qed.

Lemma strip_encoded (body : string) (j : nat) :
  forallb in_alphabet (chars body) = true ->
  JS.stripTrailingEquals (body ++ JS.repeat "=" j) = body.
Proof. intros H. rewrite strip_padding. apply strip_alphabet, H. Qed.

Lemma utf8_nonempty (c : ascii) : JS.utf8 c <> [].
Proof. unfold JS.utf8. destruct (_ <? 128); discriminate. Qed.

(** X6.  The output of [stringToBase32] for a text of [n] UTF-8 bytes is
    [ceil(8 n / 5)] characters of the alphabet followed by fewer than 8
    ['='], and its length is [8 * ceil(n / 5)], a multiple of 8; it is empty
    only for the empty text. *)
Theorem encode_output_shape (text : string) :
  exists body j,
    stringToBase32 text = body ++ JS.repeat "=" j /\
    forallb in_alphabet (chars body) = true /\
    JS.length body = ((8 * List.length (JS.TextEncoder_encode text) + 4) / 5)%nat /\
    (j < 8)%nat /\
    JS.length (stringToBase32 text)
      = (8 * ((List.length (JS.TextEncoder_encode text) + 4) / 5))%nat /\
    (stringToBase32 text = "" <-> text = "").
Proof.
  destruct (encode_bytes_shape _ (utf8_bytes text)) as (j & E & Hj & M & L & A & _).
  cbv zeta in *.
  set (n := List.length (JS.TextEncoder_encode text)) in *.
  set (body := encode_groups_n ((8 * n + 4) / 5) (bytes_to_bits (JS.TextEncoder_encode text))) in *.
  assert (Hlen : JS.length (stringToBase32 text) = (8 * ((n + 4) / 5))%nat).
  { unfold stringToBase32. rewrite E, length_append, length_repeat, L.
    rewrite L in M.
    pose proof (Nat.div_mod_eq (8 * n + 4) 5) as D1.
    pose proof (Nat.mod_upper_bound (8 * n + 4) 5 ltac:(lia)) as U1.
    pose proof (Nat.div_mod_eq (n + 4) 5) as D2.
    pose proof (Nat.mod_upper_bound (n + 4) 5 ltac:(lia)) as U2.
    pose proof (Nat.div_mod_eq ((8 * n + 4) / 5 + j) 8) as D3.
    rewrite M in D3. lia. }
  exists body, j. split; [exact E|]. split; [exact A|]. split; [exact L|].
  split; [exact Hj|]. split; [exact Hlen|].
  split.
  - intros H0. rewrite H0 in Hlen. change (JS.length "") with 0%nat in Hlen.
    destruct text as [|c text]; [reflexivity|]. exfalso.
    assert (Hn : (0 < n)%nat).
    { unfold n. cbn [JS.TextEncoder_encode]. rewrite length_app.
      pose proof (utf8_nonempty c). destruct (JS.utf8 c); [congruence | cbn; lia]. }
    pose proof (Nat.div_mod_eq (n + 4) 5) as D2.
    pose proof (Nat.mod_upper_bound (n + 4) 5 ltac:(lia)) as U2. lia.
  - intros ->. reflexivity.
Qed.

End EncodeMore.

(** ** Decoding what [stringToBase32] wrote, in general *)

Section Compose.

Lemma decode_chars_bits_of (s : string) :
  forallb accepted (chars s) = true ->
  forall bits0, decode_chars s bits0 = Ok (bits0 ++ bits_of_chars s).
Proof.
  induction s as [|c s IH]; intros H bits0.
  - cbn. rewrite append_nil_r. reflexivity.
  - cbn [chars forallb] in H. apply andb_prop in H. destruct H as [Hc Hs].
    pose proof Hc as Hc'. apply accepted_spec in Hc'. destruct Hc' as (v & Ev & Hv).
    cbn [decode_chars bits_of_chars]. unfold accepted in Hc. apply negb_true_iff in Hc.
    rewrite Hc, Ev. fold (five_bits v). rewrite (IH Hs), append_assoc. reflexivity.
Qed.

Lemma alphabet_accepted (c : ascii) :
  in_alphabet c = true -> accepted c = negb (Ascii.eqb c "A").
Proof.
  assert (P : (negb (in_alphabet c) || Bool.eqb (accepted c) (negb (Ascii.eqb c "A")))
              = true).
  { revert c. apply forall_ascii. vm_compute. reflexivity. }
  intros H. rewrite H in P. cbn in P. apply Bool.eqb_prop, P.
Qed.

Lemma body_accepted (body : string) :
  forallb in_alphabet (chars body) = true ->
  ~ In "A"%char (chars body) ->
  forallb accepted (chars body) = true.
Proof.
  induction body as [|c body IH]; intros H HA; [reflexivity|].
  cbn [chars forallb] in *. apply andb_prop in H. destruct H as [Hc Hs].
  rewrite (alphabet_accepted c Hc), IH; [|exact Hs|intros Hin; apply HA; right; exact Hin].
  destruct (Ascii.eqb_spec c "A") as [->|_]; [|reflexivity].
  exfalso. apply HA. left. reflexivity.
Qed.

Lemma in_chars_append (c : ascii) (a b : string) :
  In c (chars (a ++ b)) <-> In c (chars a) \/ In c (chars b).
Proof. rewrite chars_append. apply in_app_iff. Qed.

Lemma in_chars_equals (c : ascii) (j : nat) :
  In c (chars (JS.repeat "=" j)) -> c = "="%char.
Proof.
  induction j as [|j IH]; cbn; [tauto|]. intros [H|H]; [symmetry; exact H | apply IH, H].
Qed.

Lemma complete_groups_n_app (l : list Z) (rest : string) :
  Forall is_byte l ->
  complete_groups_n (List.length l) (bytes_to_bits l ++ rest) = l.
Proof.
  induction 1 as [|b l Hb Hl IH]; [reflexivity|].
  destruct (eight_bits_spec b Hb) as (_ & E2 & E3).
  rewrite bytes_to_bits_cons, append_assoc.
  cbn [List.length complete_groups_n]. rewrite <- E2 at 1 2.
  rewrite take_append, drop_append, E3, IH. reflexivity.
Qed.

Lemma bin_from_zeros (k : nat) : bin_from 0 (JS.repeat "0" k) = 0.
Proof. induction k as [|k IH]; [reflexivity | exact IH]. Qed.

(** The bytes that the second loop of [base32Decode] makes of the bits of
    [l] followed by [p < 8] zeros. *)
Lemma groups_of_padded_bits (l : list Z) (p : nat) :
  Forall is_byte l -> (p < 8)%nat ->
  (complete_groups (bytes_to_bits l ++ JS.repeat "0" p)
     ++ partial_group (bytes_to_bits l ++ JS.repeat "0" p) =
   l ++ (if (p =? 0)%nat then [] else [0]))%list.
Proof.
  intros Hl Hp.
  destruct (bytes_to_bits_spec l Hl) as (_ & L & _).
  assert (Hlen : JS.length (bytes_to_bits l ++ JS.repeat "0" p) = (8 * List.length l + p)%nat)
    by (rewrite length_append, length_repeat, L; reflexivity).
  assert (Hdiv : (JS.length (bytes_to_bits l ++ JS.repeat "0" p) / 8 = List.length l)%nat).
  { rewrite Hlen. symmetry. apply (Nat.div_unique _ 8 _ p); lia. }
  f_equal.
  - unfold complete_groups. rewrite Hdiv. apply complete_groups_n_app, Hl.
  - unfold partial_group, trailing_group. rewrite Hdiv, <- L, drop_append.
    destruct p as [|p]; [reflexivity|].
    cbn [JS.repeat Nat.eqb]. f_equal. apply (bin_from_zeros (S p)).
Qed.

(** X7.  Decoding the output of [stringToBase32]: if the output has an
    ['A'], [base32Decode] throws; if it has none, [base32Decode] returns the
    UTF-8 bytes of the text, followed by one byte 0 when their number is not
    a multiple of 5. *)
Theorem decode_of_encode (text : string) :
  (In "A"%char (chars (stringToBase32 text)) ->
   base32Decode (stringToBase32 text) = Throw InvalidBase32) /\
  (~ In "A"%char (chars (stringToBase32 text)) ->
   base32Decode (stringToBase32 text) =
     Ok (JS.TextEncoder_encode text
           ++ (if (List.length (JS.TextEncoder_encode text) mod 5 =? 0)%nat
               then [] else [0]))%list).
Proof.
  destruct (encode_bytes_shape _ (utf8_bytes text)) as (j & E & Hj & M & L & A & B).
  cbv zeta in *. unfold stringToBase32.
  set (bytes := JS.TextEncoder_encode text) in *.
  set (n := List.length bytes) in *.
  set (body := encode_groups_n ((8 * n + 4) / 5) (bytes_to_bits bytes)) in *.
  rewrite E.
  assert (Hs : JS.stripTrailingEquals (body ++ JS.repeat "=" j) = body)
    by (apply strip_encoded, A).
  split.
  - intros HA. apply base32Decode_throws_iff. exists "A"%char. rewrite Hs. split.
    + apply in_chars_append in HA. destruct HA as [HA|HA]; [exact HA|].
      apply in_chars_equals in HA. discriminate HA.
    + right. reflexivity.
  - intros HA.
    assert (HA' : ~ In "A"%char (chars body)).
    { intros Hin. apply HA. apply in_chars_append. left. exact Hin. }
    pose proof (decode_chars_bits_of body (body_accepted body A HA') "") as D.
    cbn [append] in D. rewrite B in D. rewrite <- Hs in D.
    destruct (base32Decode_of_bits _ _ D) as (_ & _ & R). rewrite R. f_equal.
    pose proof (Nat.div_mod_eq (8 * n + 4) 5) as D1.
    pose proof (Nat.mod_upper_bound (8 * n + 4) 5 ltac:(lia)) as U1.
    pose proof (Nat.div_mod_eq n 5) as D2.
    pose proof (Nat.mod_upper_bound n 5 ltac:(lia)) as U2.
    rewrite (groups_of_padded_bits bytes _ (utf8_bytes text)) by lia.
    f_equal.
    destruct (n mod 5 =? 0)%nat eqn:E5.
    + apply Nat.eqb_eq in E5.
      replace (5 * ((8 * n + 4) / 5) - 8 * n)%nat with 0%nat by lia. reflexivity.
    + apply Nat.eqb_neq in E5.
      destruct (5 * ((8 * n + 4) / 5) - 8 * n =? 0)%nat eqn:E0; [|reflexivity].
      apply Nat.eqb_eq in E0. lia.
Qed.

(** X8.  [stringToBase32] is injective on the bytes it encodes: two texts
    with the same output have the same UTF-8 bytes. *)
Theorem encode_injective (text1 text2 : string) :
  stringToBase32 text1 = stringToBase32 text2 ->
  JS.TextEncoder_encode text1 = JS.TextEncoder_encode text2.
Proof.
  intros H. unfold stringToBase32 in H.
  destruct (encode_bytes_shape _ (utf8_bytes text1)) as (j1 & E1 & _ & _ & _ & A1 & B1).
  destruct (encode_bytes_shape _ (utf8_bytes text2)) as (j2 & E2 & _ & _ & _ & A2 & B2).
  cbv zeta in *.
  set (b1 := JS.TextEncoder_encode text1) in *.
  set (b2 := JS.TextEncoder_encode text2) in *.
  set (n1 := List.length b1) in *. set (n2 := List.length b2) in *.
  assert (Hbody : encode_groups_n ((8 * n1 + 4) / 5) (bytes_to_bits b1)
                  = encode_groups_n ((8 * n2 + 4) / 5) (bytes_to_bits b2)).
  { rewrite <- (strip_encoded _ j1 A1), <- (strip_encoded _ j2 A2), <- E1, <- E2, H.
    reflexivity. }
  rewrite Hbody in B1. rewrite B1 in B2.
  destruct (bytes_to_bits_spec b1 (utf8_bytes text1)) as (_ & L1 & _).
  destruct (bytes_to_bits_spec b2 (utf8_bytes text2)) as (_ & L2 & _).
  fold n1 in L1. fold n2 in L2.
  pose proof (Nat.div_mod_eq (8 * n1 + 4) 5) as D1.
  pose proof (Nat.mod_upper_bound (8 * n1 + 4) 5 ltac:(lia)) as U1.
  pose proof (Nat.div_mod_eq (8 * n2 + 4) 5) as D2.
  pose proof (Nat.mod_upper_bound (8 * n2 + 4) 5 ltac:(lia)) as U2.
  assert (Hn : n1 = n2).
  { pose proof (f_equal JS.length B2) as HL.
    rewrite !length_append, !length_repeat, L1, L2 in HL. lia. }
  rewrite <- (complete_groups_n_app b1 (JS.repeat "0" (5 * ((8 * n1 + 4) / 5) - 8 * n1))
                (utf8_bytes text1)).
  rewrite <- (complete_groups_n_app b2 (JS.repeat "0" (5 * ((8 * n2 + 4) / 5) - 8 * n2))
                (utf8_bytes text2)).
  fold n1 n2. rewrite B2, Hn. reflexivity.
Qed.

End Compose.

(** ** More on the counter, the truncation and the errors of the TOTP functions *)

Section TotpMore.

Lemma rem_mod_256 (x : Z) : (Z.rem x 256) mod 256 = x mod 256.
Proof.
  rewrite (Z.quot_rem' x 256) at 2.
  rewrite Z.add_comm, Z.mul_comm, Z.mod_add by lia. reflexivity.
Qed.

Lemma counter_bytes_unfold_all (c : Z) :
  counter_bytes c =
    [ (c / 256 ^ 7) mod 256; (c / 256 ^ 6) mod 256; (c / 256 ^ 5) mod 256;
      (c / 256 ^ 4) mod 256; (c / 256 ^ 3) mod 256; (c / 256 ^ 2) mod 256;
      (c / 256 ^ 1) mod 256; (c / 256 ^ 0) mod 256 ].
Proof.
  unfold counter_bytes. cbn [fill_counter List.repeat array_set JS.toUint8].
  assert (Hdiv : forall x k, 0 <= k -> x / 256 ^ k / 256 = x / 256 ^ (k + 1)).
  { intros x k Hk. rewrite Z.pow_add_r, Z.pow_1_r by lia.
    rewrite Z.div_div; [reflexivity | | lia].
    apply Z.pow_nonzero; lia. }
  assert (H0 : c = c / 256 ^ 0) by (rewrite Z.pow_0_r, Z.div_1_r; reflexivity).
  rewrite H0 at 1 2 3 4 5 6 7 8.
  repeat (rewrite Hdiv by lia; cbn [Z.add Pos.add Pos.succ]).
  rewrite !rem_mod_256. reflexivity.
Qed.

(** X9.  For every integer counter, negative ones included, the message of
    [generateHMAC] is 8 bytes that denote the counter modulo 2^64, most
    significant byte first: the two's-complement representation on 64 bits. *)
Theorem counter_bytes_twos_complement (counter : Z) :
  List.length (counter_bytes counter) = 8%nat /\
  Forall is_byte (counter_bytes counter) /\
  be_value (counter_bytes counter) = counter mod 2 ^ 64.
Proof.
  rewrite counter_bytes_unfold_all.
  split; [reflexivity|]. split.
  - repeat constructor; unfold is_byte; apply Z.mod_pos_bound; lia.
  - unfold be_value. cbn [fold_left].
    change (2 ^ 64) with 18446744073709551616.
    change (256 ^ 7) with 72057594037927936.
    change (256 ^ 6) with 281474976710656.
    change (256 ^ 5) with 1099511627776.
    change (256 ^ 4) with 4294967296.
    change (256 ^ 3) with 16777216.
    change (256 ^ 2) with 65536.
    change (256 ^ 1) with 256.
    change (256 ^ 0) with 1.
    Z.div_mod_to_equations. lia.
Qed.

Lemma counter_bytes_inj (c1 c2 : Z) :
  0 <= c1 < 2 ^ 64 -> 0 <= c2 < 2 ^ 64 ->
  counter_bytes c1 = counter_bytes c2 -> c1 = c2.
Proof.
  intros H1 H2 E. apply (f_equal be_value) in E.
  rewrite !counter_bytes_value in E by lia.
  rewrite !Z.mod_small in E by lia. exact E.
Qed.

(** X10.  For timestamps in [0, 2^53), [generateHMAC] is given the same
    message exactly when the timestamps lie in the same 30-second step: the
    8 bytes determine the counter. *)
Theorem same_message_iff_same_step (t1 t2 : Z) :
  0 <= t1 < 2 ^ 53 -> 0 <= t2 < 2 ^ 53 ->
  (counter_bytes (counter_of t1) = counter_bytes (counter_of t2) <->
   t1 / 30000 = t2 / 30000).
Proof.
  intros H1 H2. rewrite (counter_of_exact t1 H1), (counter_of_exact t2 H2).
  change (2 ^ 53) with 9007199254740992 in *.
  split; [|intros ->; reflexivity].
  apply counter_bytes_inj; change (2 ^ 64) with 18446744073709551616;
    Z.div_mod_to_equations; lia.
Qed.

(** X11.  [generateTOTP] throws exactly when [base32Decode] throws on the
    secret, with that error, or the HMAC provider rejects the decoded key
    and the counter bytes, with that error; [verifyTOTP] throws exactly when
    [generateTOTP] does, with the same error, whatever the candidate.  So a
    secret that keeps a rejected character makes both throw the
    invalid-Base32 error, for every provider, timestamp and candidate. *)
Theorem totp_errors
    (subtle_hmac : list Z -> list Z -> result (list Z))
    (secret candidate : string) (timestamp : Z) :
  (forall e,
      generateTOTP subtle_hmac secret timestamp = Throw e <->
      base32Decode secret = Throw e \/
      exists key, base32Decode secret = Ok key /\
                  subtle_hmac key (counter_bytes (counter_of timestamp)) = Throw e) /\
  (forall e,
      verifyTOTP subtle_hmac secret candidate timestamp = Throw e <->
      generateTOTP subtle_hmac secret timestamp = Throw e) /\
  ((exists c, In c (chars (JS.stripTrailingEquals secret)) /\ rejected c) ->
   generateTOTP subtle_hmac secret timestamp = Throw InvalidBase32 /\
   verifyTOTP subtle_hmac secret candidate timestamp = Throw InvalidBase32).
Proof.
  assert (G : forall e,
             generateTOTP subtle_hmac secret timestamp = Throw e <->
             base32Decode secret = Throw e \/
             exists key, base32Decode secret = Ok key /\
                         subtle_hmac key (counter_bytes (counter_of timestamp)) = Throw e).
  { intros e. unfold generateTOTP, generateHMAC.
    destruct (base32Decode secret) as [key|e0]; cbn [bind].
    - destruct (subtle_hmac key (counter_bytes (counter_of timestamp))) as [d|e1] eqn:Eh;
        cbn [bind].
      + split; [discriminate|]. intros [H|(k & Hk & H)]; [discriminate H|].
        injection Hk as <-. rewrite Eh in H. discriminate H.
      + split.
        * intros H. injection H as <-. right. exists key. split; [reflexivity | exact Eh].
        * intros [H|(k & Hk & H)]; [discriminate H|].
          injection Hk as <-. rewrite Eh in H. injection H as <-. reflexivity.
    - split; [intros H; injection H as <-; left; reflexivity|].
      intros [H|(k & Hk & _)]; [injection H as <-; reflexivity | discriminate Hk]. }
  assert (V : forall e,
             verifyTOTP subtle_hmac secret candidate timestamp = Throw e <->
             generateTOTP subtle_hmac secret timestamp = Throw e).
  { intros e. unfold verifyTOTP.
    destruct (generateTOTP subtle_hmac secret timestamp) as [code|e0]; cbn [bind].
    - split; discriminate.
    - split; intros H; injection H as <-; reflexivity. }
  split; [exact G|]. split; [exact V|].
  intros Hex. apply base32Decode_throws_iff in Hex.
  assert (Hg : generateTOTP subtle_hmac secret timestamp = Throw InvalidBase32)
    by (apply G; left; exact Hex).
  split; [exact Hg | apply V, Hg].
Qed.

Lemma generateTOTP_same_key
    (subtle_hmac : list Z -> list Z -> result (list Z))
    (secret1 secret2 : string) (timestamp : Z) :
  base32Decode secret1 = base32Decode secret2 ->
  generateTOTP subtle_hmac secret1 timestamp = generateTOTP subtle_hmac secret2 timestamp.
Proof. intros H. unfold generateTOTP. rewrite H. reflexivity. Qed.

(** X12.  The code does not depend on the case of the ASCII letters of the
    secret nor on ['='] at its end: secrets that are equal once the letters
    a to z are replaced by A to Z, each followed by any number of ['='],
    give the same result of [generateTOTP] and of [verifyTOTP]. *)
Theorem secret_ascii_case_and_padding_irrelevant
    (subtle_hmac : list Z -> list Z -> result (list Z))
    (secret1 secret2 candidate : string) (k1 k2 : nat) (timestamp : Z) :
  map_chars ascii_upper secret1 = map_chars ascii_upper secret2 ->
  generateTOTP subtle_hmac (secret1 ++ JS.repeat "=" k1) timestamp =
    generateTOTP subtle_hmac (secret2 ++ JS.repeat "=" k2) timestamp /\
  verifyTOTP subtle_hmac (secret1 ++ JS.repeat "=" k1) candidate timestamp =
    verifyTOTP subtle_hmac (secret2 ++ JS.repeat "=" k2) candidate timestamp.
Proof.
  intros H.
  assert (E : base32Decode (secret1 ++ JS.repeat "=" k1)
              = base32Decode (secret2 ++ JS.repeat "=" k2)).
  { unfold base32Decode. rewrite !strip_padding.
    fold (base32Decode secret1). fold (base32Decode secret2).
    rewrite <- (base32Decode_map_ascii_upper secret1),
            <- (base32Decode_map_ascii_upper secret2), H.
    reflexivity. }
  pose proof (generateTOTP_same_key subtle_hmac _ _ timestamp E) as G.
  split; [exact G|]. unfold verifyTOTP. rewrite G. reflexivity.
Qed.

End TotpMore.

(** ** Digests of other lengths, and what [verifyTOTP] accepts *)

Section TruncationMore.

Lemma array_get_in_range (a : list Z) (i : Z) :
  Forall is_byte a -> 0 <= i < Z.of_nat (List.length a) ->
  array_get a (Some i) = Some (nth (Z.to_nat i) a 0) /\ is_byte (nth (Z.to_nat i) a 0).
Proof.
  intros Hb Hi. unfold array_get.
  destruct (i <? 0) eqn:E; [apply Z.ltb_lt in E; lia|].
  assert (Hn : (Z.to_nat i < List.length a)%nat) by lia.
  rewrite (nth_error_nth' a 0 Hn). split; [reflexivity|].
  rewrite Forall_forall in Hb. apply Hb, nth_In, Hn.
Qed.

Lemma array_get_out_of_range (a : list Z) (i : Z) :
  i < 0 \/ Z.of_nat (List.length a) <= i -> array_get a (Some i) = None.
Proof.
  intros Hi. unfold array_get.
  destruct (i <? 0) eqn:E; [reflexivity|]. apply Z.ltb_ge in E.
  apply nth_error_None. lia.
Qed.

(** X13.  The truncation does not depend on the digest having 20 bytes: on
    every array of at least 19 bytes the offset is the last byte modulo 16,
    the four reads are in range, the value is in [0, 2^31) and the code has
    6 decimal digits. *)
Theorem truncation_any_length (hmac : list Z) :
  (19 <= List.length hmac)%nat ->
  Forall is_byte hmac ->
  exists offset value,
    offset = nth (List.length hmac - 1) hmac 0 mod 16 /\
    offset_of hmac = Some offset /\
    value = (nth (Z.to_nat offset) hmac 0 mod 128) * 2 ^ 24
            + nth (Z.to_nat (offset + 1)) hmac 0 * 2 ^ 16
            + nth (Z.to_nat (offset + 2)) hmac 0 * 2 ^ 8
            + nth (Z.to_nat (offset + 3)) hmac 0 /\
    truncate hmac = Some value /\
    0 <= value < 2 ^ 31 /\
    JS.length (format_otp (truncate hmac)) = 6%nat /\
    all_digits (format_otp (truncate hmac)) = true.
Proof.
  intros Hlen Hb.
  destruct (array_get_in_range hmac (Z.of_nat (List.length hmac) - 1) Hb) as [GL BL];
    [lia|].
  replace (Z.to_nat (Z.of_nat (List.length hmac) - 1)) with (List.length hmac - 1)%nat
    in GL, BL by lia.
  set (last := nth (List.length hmac - 1) hmac 0) in *. unfold is_byte in BL.
  set (offset := last mod 16).
  assert (Hoff : 0 <= offset < 16) by (apply Z.mod_pos_bound; lia).
  assert (Eoff : offset_of hmac = Some offset).
  { unfold offset_of. rewrite GL. cbn [JS.rem option_map].
    rewrite Z.rem_mod_nonneg by lia. reflexivity. }
  destruct (array_get_in_range hmac offset Hb) as [G0 B0]; [lia|].
  destruct (array_get_in_range hmac (offset + 1) Hb) as [G1 B1]; [lia|].
  destruct (array_get_in_range hmac (offset + 2) Hb) as [G2 B2]; [lia|].
  destruct (array_get_in_range hmac (offset + 3) Hb) as [G3 B3]; [lia|].
  unfold is_byte in *.
  eexists offset, _. split; [reflexivity|]. split; [exact Eoff|]. split; [reflexivity|].
  assert (Et : truncate hmac =
               Some ((nth (Z.to_nat offset) hmac 0 mod 128) * 2 ^ 24
                     + nth (Z.to_nat (offset + 1)) hmac 0 * 2 ^ 16
                     + nth (Z.to_nat (offset + 2)) hmac 0 * 2 ^ 8
                     + nth (Z.to_nat (offset + 3)) hmac 0)).
  { unfold truncate. rewrite Eoff. cbn [JS.add].
    rewrite Z.add_0_r, G0, G1, G2, G3.
    cbn [JS.rem JS.mul JS.add option_map].
    rewrite !Z.rem_mod_nonneg by lia.
    rewrite !(Z.mod_small _ 256) by lia.
    change (256 ^ 3) with (2 ^ 24). change (256 ^ 2) with (2 ^ 16).
    change (256 ^ 1) with (2 ^ 8). change (256 ^ 0) with 1.
    rewrite Z.mul_1_r. reflexivity. }
  assert (Hv : 0 <= (nth (Z.to_nat offset) hmac 0 mod 128) * 2 ^ 24
                    + nth (Z.to_nat (offset + 1)) hmac 0 * 2 ^ 16
                    + nth (Z.to_nat (offset + 2)) hmac 0 * 2 ^ 8
                    + nth (Z.to_nat (offset + 3)) hmac 0 < 2 ^ 31).
  { assert (0 <= nth (Z.to_nat offset) hmac 0 mod 128 < 128)
      by (apply Z.mod_pos_bound; lia).
    change (2 ^ 24) with 16777216. change (2 ^ 16) with 65536.
    change (2 ^ 8) with 256. change (2 ^ 31) with 2147483648. lia. }
  split; [exact Et|]. split; [exact Hv|].
  rewrite Et. destruct (format_otp_spec _ (proj1 Hv)) as (_ & L & D & _).
  split; [exact L | exact D].
Qed.

(** X14.  On an array of fewer than 4 elements, which has no four
    consecutive elements to read, the value is [NaN] and the rendering is
    "000NaN": the code has no test of the length of the digest. *)
Theorem truncation_of_short_digest (hmac : list Z) :
  (List.length hmac < 4)%nat ->
  truncate hmac = None /\ format_otp (truncate hmac) = "000NaN".
Proof.
  intros Hlen.
  assert (Et : truncate hmac = None).
  { unfold truncate. destruct (offset_of hmac) as [offset|]; [|reflexivity].
    cbn [JS.add]. rewrite Z.add_0_r.
    destruct (Z_lt_le_dec offset 0) as [Hneg|Hpos].
    - rewrite (array_get_out_of_range hmac offset) by lia. reflexivity.
    - rewrite (array_get_out_of_range hmac (offset + 3)) by lia.
      cbn [JS.rem JS.mul option_map].
      match goal with |- JS.add ?x None = None => destruct x; reflexivity end. }
  split; [exact Et|]. rewrite Et. reflexivity.
Qed.

End TruncationMore.

Section VerifyMore.

Variable subtle_hmac : list Z -> list Z -> result (list Z).
Hypothesis hmac_ok : digest_contract subtle_hmac.

Lemma digit_value_range (c : ascii) :
  is_decimal_digit c = true -> 0 <= Z.of_N (N_of_ascii c) - 48 <= 9.
Proof.
  unfold is_decimal_digit. intros H. apply andb_prop in H. destruct H as [H1 H2].
  apply N.leb_le in H1. apply N.leb_le in H2. lia.
Qed.

(** Strings of decimal digits of the same length that denote the same number
    are equal. *)
Lemma decimal_from_inj (a : string) :
  forall (b : string) (v w : Z),
    JS.length a = JS.length b ->
    all_digits a = true -> all_digits b = true ->
    decimal_from v a = decimal_from w b -> v = w /\ a = b.
Proof.
  induction a as [|c a IH]; intros [|d b] v w Hl Ha Hb E; try discriminate Hl.
  - split; [exact E | reflexivity].
  - cbn [all_digits] in Ha, Hb.
    apply andb_prop in Ha. destruct Ha as [Hc Ha].
    apply andb_prop in Hb. destruct Hb as [Hd Hb].
    cbn [decimal_from] in E. injection Hl as Hl.
    destruct (IH b _ _ Hl Ha Hb E) as [Ev Eab].
    pose proof (digit_value_range c Hc). pose proof (digit_value_range d Hd).
    assert (Hcd : N_of_ascii c = N_of_ascii d) by lia.
    split; [lia|]. subst b. f_equal.
    rewrite <- (ascii_N_embedding c), <- (ascii_N_embedding d), Hcd. reflexivity.
Qed.

(** X15.  Once generation succeeds, with truncated value [value],
    [verifyTOTP] answers [true] exactly on the candidates made of 6 decimal
    digits that denote [value mod 1,000,000]; it answers [false] on every
    other string, such as one with a sign, a space or fewer digits. *)
Theorem verify_accepts_exactly_the_code (secret code : string) (timestamp : Z) :
  generateTOTP subtle_hmac secret timestamp = Ok code ->
  exists key digest value,
    base32Decode secret = Ok key /\
    generateHMAC subtle_hmac key (counter_of timestamp) = Ok digest /\
    truncate digest = Some value /\
    forall candidate,
      (verifyTOTP subtle_hmac secret candidate timestamp = Ok true <->
       JS.length candidate = 6%nat /\ all_digits candidate = true /\
       decimal_value candidate = value mod 1000000) /\
      (verifyTOTP subtle_hmac secret candidate timestamp = Ok false <->
       ~ (JS.length candidate = 6%nat /\ all_digits candidate = true /\
          decimal_value candidate = value mod 1000000)).
Proof.
  intros H.
  destruct (generateTOTP_Ok subtle_hmac hmac_ok _ _ _ H)
    as (key & digest & value & Ek & Eh & _ & Et & Hv & Ec).
  destruct (format_otp_spec value) as (_ & L & D & V); [lia|].
  cbv zeta in L, D, V. rewrite <- Ec in L, D, V.
  exists key, digest, value. split; [exact Ek|]. split; [exact Eh|]. split; [exact Et|].
  intros candidate.
  rewrite (verifyTOTP_of_generate subtle_hmac _ candidate _ _ H).
  assert (Hiff : code = candidate <->
                 JS.length candidate = 6%nat /\ all_digits candidate = true /\
                 decimal_value candidate = value mod 1000000).
  { split.
    - intros <-. auto.
    - intros (Lc & Dc & Vc). unfold decimal_value in *.
      apply (decimal_from_inj code candidate 0 0); congruence. }
  destruct (String.eqb_spec code candidate) as [Heq|Hne].
  - split; split; try (intros _; apply Hiff, Heq); try reflexivity.
    + intros Hf. discriminate Hf.
    + intros Hn. exfalso. apply Hn, Hiff, Heq.
  - split; split; try reflexivity.
    + intros Hf. discriminate Hf.
    + intros Hc. exfalso. apply Hne, Hiff, Hc.
    + intros _ Hc. apply Hne, Hiff, Hc.
Qed.

End VerifyMore.

(** ** Encoding a concatenation *)

Section EncodeConcat.

Lemma bytes_to_bits_app (a b : list Z) :
  bytes_to_bits (a ++ b) = bytes_to_bits a ++ bytes_to_bits b.
Proof.
  induction a as [|x a IH]; [reflexivity|].
  cbn [app]. rewrite !bytes_to_bits_cons, IH, append_assoc. reflexivity.
Qed.

Lemma take_app_le (n : nat) (a b : string) :
  (n <= JS.length a)%nat -> JS.take n (a ++ b) = JS.take n a.
Proof.
  unfold JS.length. revert a. induction n as [|n IH]; intros a H.
  - destruct a, b; reflexivity.
  - destruct a as [|c a]; cbn in H; [lia|].
    cbn [append JS.take]. rewrite IH by lia. reflexivity.
Qed.

Lemma drop_app_le (n : nat) (a b : string) :
  (n <= JS.length a)%nat -> JS.drop n (a ++ b) = JS.drop n a ++ b.
Proof.
  unfold JS.length. revert a. induction n as [|n IH]; intros a H.
  - destruct a, b; reflexivity.
  - destruct a as [|c a]; cbn in H; [lia|].
    cbn [append JS.drop]. apply IH. lia.
Qed.

Lemma encode_groups_n_app (m : nat) :
  forall (s1 s2 : string) (k : nat),
    JS.length s1 = (5 * m)%nat ->
    encode_groups_n (m + k) (s1 ++ s2) = encode_groups_n m s1 ++ encode_groups_n k s2.
Proof.
  induction m as [|m IH]; intros s1 s2 k Hl.
  - rewrite (length_zero s1) by lia. reflexivity.
  - cbn [Nat.add encode_groups_n].
    rewrite take_app_le, drop_app_le by lia.
    rewrite IH by (rewrite length_drop; lia).
    rewrite append_assoc. reflexivity.
Qed.

(** X16.  Encoding composes on blocks of 5 bytes: when the UTF-8 bytes of a
    text are those of [text1], a multiple of 5 in number, followed by those
    of [text2], the output for the text is the output for [text1], which
    has no padding, followed by the output for [text2]. *)
Theorem encode_concat_bytes (text text1 text2 : string) :
  JS.TextEncoder_encode text =
    (JS.TextEncoder_encode text1 ++ JS.TextEncoder_encode text2)%list ->
  (List.length (JS.TextEncoder_encode text1) mod 5 = 0)%nat ->
  stringToBase32 text = stringToBase32 text1 ++ stringToBase32 text2 /\
  ~ In "="%char (chars (stringToBase32 text1)).
Proof.
  intros Hbytes H5.
  pose proof (utf8_bytes text1) as B1. pose proof (utf8_bytes text2) as B2.
  pose proof (utf8_bytes text) as B12.
  destruct (encode_bytes_shape _ B1) as (j1 & E1 & J1 & M1 & L1 & A1 & _).
  destruct (encode_bytes_shape _ B2) as (j2 & E2 & J2 & M2 & L2 & _).
  destruct (encode_bytes_shape _ B12) as (j & E & J & M & L & _).
  cbv zeta in *. unfold stringToBase32. rewrite E, E1, E2.
  rewrite Hbytes in *. rewrite length_app in *. rewrite bytes_to_bits_app in *.
  set (n1 := List.length (JS.TextEncoder_encode text1)) in *.
  set (n2 := List.length (JS.TextEncoder_encode text2)) in *.
  destruct (bytes_to_bits_spec _ B1) as (_ & Lb1 & _). fold n1 in Lb1.
  pose proof (Nat.div_mod_eq n1 5) as D1.
  pose proof (Nat.div_mod_eq (8 * n1 + 4) 5) as D2.
  pose proof (Nat.mod_upper_bound (8 * n1 + 4) 5 ltac:(lia)) as U2.
  pose proof (Nat.div_mod_eq (8 * n2 + 4) 5) as D3.
  pose proof (Nat.mod_upper_bound (8 * n2 + 4) 5 ltac:(lia)) as U3.
  pose proof (Nat.div_mod_eq (8 * (n1 + n2) + 4) 5) as D4.
  pose proof (Nat.mod_upper_bound (8 * (n1 + n2) + 4) 5 ltac:(lia)) as U4.
  assert (Hm1 : ((8 * n1 + 4) / 5 = 8 * (n1 / 5))%nat) by lia.
  assert (Hm : ((8 * (n1 + n2) + 4) / 5 = (8 * n1 + 4) / 5 + (8 * n2 + 4) / 5)%nat) by lia.
  rewrite Hm in *.
  assert (Hl1 : JS.length (bytes_to_bits (JS.TextEncoder_encode text1))
                = (5 * ((8 * n1 + 4) / 5))%nat) by lia.
  rewrite (encode_groups_n_app _ _ _ _ Hl1) in *.
  rewrite length_append in *. rewrite L1, L2 in *.
  pose proof (Nat.div_mod_eq ((8 * n1 + 4) / 5 + j1) 8) as D5.
  pose proof (Nat.div_mod_eq ((8 * n2 + 4) / 5 + j2) 8) as D6.
  pose proof (Nat.div_mod_eq ((8 * n1 + 4) / 5 + (8 * n2 + 4) / 5 + j) 8) as D7.
  rewrite M1 in D5. rewrite M2 in D6. rewrite M in D7.
  assert (Hj1 : j1 = 0%nat) by lia.
  assert (Hj : j = j2) by lia.
  subst j1 j. cbn [JS.repeat]. rewrite !append_nil_r.
  split; [apply append_assoc|].
  intros Hin. rewrite forallb_forall in A1. specialize (A1 _ Hin). discriminate A1.
Qed.

End EncodeConcat.

(** ** The number that [base32Decode] preserves *)

Section DecodeValue.

Lemma bin_from_append (a b : string) (acc : Z) :
  bin_from acc (a ++ b) = bin_from (bin_from acc a) b.
Proof. revert acc. induction a as [|c a IH]; intros acc; cbn; [|rewrite IH]; reflexivity. Qed.

Lemma bin_from_shift (s : string) (acc : Z) :
  bin_from acc s = acc * 2 ^ Z.of_nat (JS.length s) + bin_from 0 s.
Proof.
  revert acc. induction s as [|c s IH]; intros acc.
  - cbn. lia.
  - cbn [bin_from]. rewrite IH, (IH (2 * 0 + _)).
    unfold JS.length. cbn [String.length]. rewrite Nat2Z.inj_succ, Z.pow_succ_r by lia.
    lia.
Qed.

Lemma bin_from_bits_of_chars (s : string) :
  forallb accepted (chars s) = true ->
  forall acc, bin_from acc (bits_of_chars s) = base32_from acc s.
Proof.
  induction s as [|c s IH]; intros H acc; [reflexivity|].
  cbn [chars forallb] in H. apply andb_prop in H. destruct H as [Hc Hs].
  apply accepted_spec in Hc. destruct Hc as (v & Ev & _).
  cbn [bits_of_chars base32_from]. rewrite Ev, bin_from_append, (IH Hs).
  destruct (five_bits_spec v (lookup_range _ _ Ev)) as (_ & F2 & F3).
  rewrite bin_from_shift, F2. unfold bin_value in F3. rewrite F3.
  f_equal. change (2 ^ Z.of_nat 5) with 32. lia.
Qed.

Lemma be_from_complete_groups (n : nat) :
  forall (s : string) (acc : Z),
    JS.length s = (8 * n)%nat ->
    fold_left (fun a b => a * 256 + b) (complete_groups_n n s) acc = bin_from acc s.
Proof.
  induction n as [|n IH]; intros s acc Hl.
  - rewrite (length_zero s) by lia. reflexivity.
  - cbn [complete_groups_n fold_left]. rewrite IH by (rewrite length_drop; lia).
    rewrite <- (take_drop 8 s) at 3. rewrite bin_from_append. f_equal.
    rewrite (bin_from_shift (JS.take 8 s) acc), length_take.
    replace (Nat.min 8 (JS.length s)) with 8%nat by lia.
    reflexivity.
Qed.

(** X17.  When the number of characters left after the trailing ['='] are
    removed is a multiple of 8, [base32Decode] returns 5 bytes per 8
    characters, and these bytes denote in base 256, first byte most
    significant, the number that the characters denote in base 32. *)
Theorem decode_preserves_value (base32 : string) (output : list Z) :
  base32Decode base32 = Ok output ->
  (JS.length (JS.stripTrailingEquals base32) mod 8 = 0)%nat ->
  List.length output = (5 * (JS.length (JS.stripTrailingEquals base32) / 8))%nat /\
  be_value output = base32_value (JS.stripTrailingEquals base32).
Proof.
  intros H Hm.
  pose proof (base32Decode_cases base32) as C. rewrite H in C.
  pose proof (decode_chars_bits_of _ C "") as D. cbn [append] in D.
  destruct (base32Decode_of_bits _ _ D) as (_ & L & R).
  rewrite R in H. injection H as <-.
  set (m := JS.length (JS.stripTrailingEquals base32)) in *.
  set (bits := bits_of_chars (JS.stripTrailingEquals base32)) in *.
  pose proof (Nat.div_mod_eq m 8) as Dm.
  assert (Hl : JS.length bits = (8 * (5 * (m / 8)))%nat) by lia.
  assert (Hd : (JS.length bits / 8 = 5 * (m / 8))%nat).
  { rewrite Hl, Nat.mul_comm, Nat.div_mul by lia. reflexivity. }
  assert (Hp : partial_group bits = []).
  { unfold partial_group. rewrite (length_zero (trailing_group bits)); [reflexivity|].
    rewrite trailing_group_length, Hl, Nat.mul_comm. apply Nat.Div0.mod_mul. }
  rewrite Hp, app_nil_r. unfold complete_groups. rewrite Hd.
  split; [apply complete_groups_n_length|].
  unfold be_value. rewrite (be_from_complete_groups _ _ _ Hl).
  apply bin_from_bits_of_chars, C.
Qed.

End DecodeValue.

(** ** The further properties on concrete inputs *)

Section MoreVectors.

Lemma decode_ignores_ascii_case_witness :
  map_chars ascii_upper "jbswy3dpEHPK3pxp" = map_chars ascii_upper "JBSWY3DPEHPK3PXP" /\
  base32Decode "jbswy3dpEHPK3pxp" = base32Decode "JBSWY3DPEHPK3PXP".
Proof.
  assert (H : map_chars ascii_upper "jbswy3dpEHPK3pxp"
              = map_chars ascii_upper "JBSWY3DPEHPK3PXP") by reflexivity.
  split; [exact H|].
  exact (decode_ignores_ascii_case "jbswy3dpEHPK3pxp" "JBSWY3DPEHPK3PXP" H).
Defined.

Lemma decode_output_size_witness :
  base32Decode "MZXW6===" = Ok [102; 111; 111; 0] /\
  List.length [102; 111; 111; 0] =
    ((5 * JS.length (JS.stripTrailingEquals "MZXW6===") + 7) / 8)%nat.
Proof.
  assert (H : base32Decode "MZXW6===" = Ok [102; 111; 111; 0]) by (vm_compute; reflexivity).
  split; [exact H|].
  exact (proj2 (decode_output_size "MZXW6===" [102; 111; 111; 0] H)).
Defined.

Lemma decode_of_encode_witness :
  ~ In "A"%char (chars (stringToBase32 "foo")) /\
  base32Decode (stringToBase32 "foo") = Ok [102; 111; 111; 0].
Proof.
  assert (H : ~ In "A"%char (chars (stringToBase32 "foo"))).
  { vm_compute. intuition discriminate. }
  split; [exact H|].
  exact (proj2 (decode_of_encode "foo") H).
Defined.

Lemma encode_injective_witness :
  stringToBase32 "foo" = stringToBase32 "foo" /\
  JS.TextEncoder_encode "foo" = JS.TextEncoder_encode "foo".
Proof.
  assert (H : stringToBase32 "foo" = stringToBase32 "foo") by reflexivity.
  split; [exact H|].
  exact (encode_injective "foo" "foo" H).
Defined.

Lemma same_message_iff_same_step_witness :
  0 <= 30000 < 2 ^ 53 /\ 0 <= 59999 < 2 ^ 53 /\
  (counter_bytes (counter_of 30000) = counter_bytes (counter_of 59999) <->
   30000 / 30000 = 59999 / 30000).
Proof.
  assert (H1 : 0 <= 30000 < 2 ^ 53) by (split; [discriminate | reflexivity]).
  assert (H2 : 0 <= 59999 < 2 ^ 53) by (split; [discriminate | reflexivity]).
  split; [exact H1|]. split; [exact H2|].
  exact (same_message_iff_same_step 30000 59999 H1 H2).
Defined.

Lemma secret_ascii_case_and_padding_irrelevant_witness :
  map_chars ascii_upper "gezdgnbvgy3tqojqgezdgnbvgy3tqojq"
    = map_chars ascii_upper rfc6238_secret /\
  generateTOTP RefCrypto.subtle_hmac
    ("gezdgnbvgy3tqojqgezdgnbvgy3tqojq" ++ JS.repeat "=" 3) 59000 =
  generateTOTP RefCrypto.subtle_hmac (rfc6238_secret ++ JS.repeat "=" 0) 59000.
Proof.
  assert (H : map_chars ascii_upper "gezdgnbvgy3tqojqgezdgnbvgy3tqojq"
              = map_chars ascii_upper rfc6238_secret) by reflexivity.
  split; [exact H|].
  exact (proj1 (secret_ascii_case_and_padding_irrelevant RefCrypto.subtle_hmac
                  "gezdgnbvgy3tqojqgezdgnbvgy3tqojq" rfc6238_secret "287082" 3 0 59000 H)).
Defined.

Lemma truncation_any_length_witness :
  (19 <= List.length (rfc4226_digest ++ rfc4226_digest))%nat /\
  Forall is_byte (rfc4226_digest ++ rfc4226_digest) /\
  JS.length (format_otp (truncate (rfc4226_digest ++ rfc4226_digest))) = 6%nat.
Proof.
  assert (H1 : (19 <= List.length (rfc4226_digest ++ rfc4226_digest))%nat)
    by (cbn; lia).
  assert (H2 : Forall is_byte (rfc4226_digest ++ rfc4226_digest)).
  { unfold rfc4226_digest, is_byte. cbn [app]. repeat constructor; lia. }
  split; [exact H1|]. split; [exact H2|].
  destruct (truncation_any_length (rfc4226_digest ++ rfc4226_digest) H1 H2)
    as (offset & value & _ & _ & _ & _ & _ & L & _).
  exact L.
Defined.

Lemma truncation_of_short_digest_witness :
  (List.length (@nil Z) < 4)%nat /\ format_otp (truncate []) = "000NaN".
Proof.
  assert (H : (List.length (@nil Z) < 4)%nat) by (cbn; lia).
  split; [exact H|].
  exact (proj2 (truncation_of_short_digest [] H)).
Defined.

Lemma verify_accepts_exactly_the_code_witness :
  digest_contract RefCrypto.subtle_hmac /\
  generateTOTP RefCrypto.subtle_hmac rfc6238_secret 59000 = Ok "287082" /\
  exists key digest value,
    base32Decode rfc6238_secret = Ok key /\
    generateHMAC RefCrypto.subtle_hmac key (counter_of 59000) = Ok digest /\
    truncate digest = Some value.
Proof.
  assert (H : generateTOTP RefCrypto.subtle_hmac rfc6238_secret 59000 = Ok "287082")
    by (vm_compute; reflexivity).
  split; [exact subtle_hmac_contract|]. split; [exact H|].
  destruct (verify_accepts_exactly_the_code RefCrypto.subtle_hmac subtle_hmac_contract
              rfc6238_secret "287082" 59000 H)
    as (key & digest & value & Ek & Eh & Et & _).
  exists key, digest, value. auto.
Defined.

Lemma decode_preserves_value_witness :
  base32Decode "JBSWY3DPEHPK3PXP" = Ok [72; 101; 108; 108; 111; 33; 222; 173; 190; 239] /\
  (JS.length (JS.stripTrailingEquals "JBSWY3DPEHPK3PXP") mod 8 = 0)%nat /\
  be_value [72; 101; 108; 108; 111; 33; 222; 173; 190; 239]
    = base32_value (JS.stripTrailingEquals "JBSWY3DPEHPK3PXP").
Proof.
  assert (H : base32Decode "JBSWY3DPEHPK3PXP"
              = Ok [72; 101; 108; 108; 111; 33; 222; 173; 190; 239])
    by (vm_compute; reflexivity).
  assert (Hm : (JS.length (JS.stripTrailingEquals "JBSWY3DPEHPK3PXP") mod 8 = 0)%nat)
    by reflexivity.
  split; [exact H|]. split; [exact Hm|].
  exact (proj2 (decode_preserves_value "JBSWY3DPEHPK3PXP" _ H Hm)).
Defined.

Lemma encode_concat_bytes_witness :
  JS.TextEncoder_encode "12345foo" =
    (JS.TextEncoder_encode "12345" ++ JS.TextEncoder_encode "foo")%list /\
  (List.length (JS.TextEncoder_encode "12345") mod 5 = 0)%nat /\
  stringToBase32 "12345foo" = stringToBase32 "12345" ++ stringToBase32 "foo".
Proof.
  assert (Hb : JS.TextEncoder_encode "12345foo" =
               (JS.TextEncoder_encode "12345" ++ JS.TextEncoder_encode "foo")%list)
    by reflexivity.
  assert (H : (List.length (JS.TextEncoder_encode "12345") mod 5 = 0)%nat) by reflexivity.
  split; [exact Hb|]. split; [exact H|].
  exact (proj1 (encode_concat_bytes "12345foo" "12345" "foo" Hb H)).
Defined.

End MoreVectors.
